(** * Polyair: a GPU line renderer for a block-based programming host

    A shallow embedding of the two variants of the Polyair extension
    ([src/polyair-extension.js], the current file, and the older variant kept
    in [src/unnamed/part_000]) together with the part of the WebGL state
    machine they drive, and the properties the specification states about
    them.

    Conventions of the embedding.
    - A JavaScript number is a rational, an infinity or [NaN]
      ([JS.number]); negative zero is not distinguished from zero.  The
      binary64 arithmetic of the program is taken on the rationals: a sum, a
      difference or a quotient is the number itself, not its binary64
      neighbour.
    - What the program hands to WebGL is binary32: the elements of a
      [Float32Array] and the [GLfloat] arguments of [uniform2f],
      [uniformMatrix3fv] and [lineWidth] are rounded to the nearest binary32
      value, ties to even, with overflow to an infinity ([JS.binary32]).
    - The arithmetic of a vertex shader is the GPU's ([WebGL.Arithmetic]): the
      context records a draw call with the vertices it fetched, the program
      and the uniforms; what the vertex stage computes from them is a
      function of that arithmetic ([WebGL.clip]).
    - A method of the class is a function from the instance (the record
      [Polyair.Instance]) to a [Completion]: it returns normally with a value
      and the instance as it left it, or it throws with the instance as it
      left it.
    - [Scratch.Cast.toNumber] belongs to the host: it is a parameter
      [toNumber] of the methods that call it.  The host never hands back
      [NaN] from it, hence its codomain [Q].
    - Console output is not part of the state. *)

From Stdlib Require Import QArith Qminmax Qreduction Qpower Qabs.
From stdpp Require Import gmap strings list.

Open Scope Z_scope.

(** ** JavaScript values *)

Module JS.

(** A finite number, [NaN], or an infinity with its sign. *)
Inductive number := Num (q : Q) | NaN | Infinity (negative : bool).

Definition negative (x : Q) : bool := Z.ltb (Qnum x) 0.

(** The operators on numbers: on finite numbers the result is the number
    itself (see the conventions); infinities and NaN are as in IEEE 754, a
    zero divisor being the positive zero. *)
Definition neg (a : number) : number :=
  match a with
  | Num x => Num (- x)
  | NaN => NaN
  | Infinity s => Infinity (negb s)
  end.

Definition add (a b : number) : number :=
  match a, b with
  | Num x, Num y => Num (x + y)
  | Infinity s, Infinity s' => if Bool.eqb s s' then Infinity s else NaN
  | Infinity s, Num _ => Infinity s
  | Num _, Infinity s => Infinity s
  | _, _ => NaN
  end.

Definition sub (a b : number) : number := add a (neg b).

Definition div (a b : number) : number :=
  match a, b with
  | Num x, Num y =>
      if Qeq_bool y 0
      then (if Qeq_bool x 0 then NaN else Infinity (negative x))
      else Num (x / y)
  | Num _, Infinity _ => Num 0
  | Infinity s, Num y => Infinity (xorb s (negative y))
  | _, _ => NaN
  end.

(** The program does not multiply; the binary32 arithmetic of the scenarios
    does. *)
Definition mul (a b : number) : number :=
  match a, b with
  | Num x, Num y => Num (x * y)
  | Infinity s, Infinity t => Infinity (xorb s t)
  | Infinity s, Num y =>
      if Qeq_bool y 0 then NaN else Infinity (xorb s (negative y))
  | Num x, Infinity t =>
      if Qeq_bool x 0 then NaN else Infinity (xorb (negative x) t)
  | _, _ => NaN
  end.

(** The same number: rationals that are equal as fractions, the same
    infinity, or two NaNs. *)
Definition same (a b : number) : Prop :=
  match a, b with
  | Num x, Num y => (x == y)%Q
  | NaN, NaN => True
  | Infinity s, Infinity s' => s = s'
  | _, _ => False
  end.

(** *** Rounding to a binary floating-point format

    A format has [prec] significant bits and exponents from [1 - emax] to
    [emax]: binary32 is (24, 127). *)

(** The integer [l] with 2^l <= n/d < 2^(l+1). *)
Definition ilog2 (n d : positive) : Z :=
  let l := Z.log2 (Zpos n) - Z.log2 (Zpos d) in
  if (if 0 <=? l then Zpos d * 2 ^ l <=? Zpos n else Zpos d <=? Zpos n * 2 ^ (- l))
  then l else l - 1.

(** The integer nearest to n/d (for d > 0), the even one of two that are
    equally near. *)
Definition nearest_even (n d : Z) : Z :=
  let f := n / d in
  match 2 * (n mod d) ?= d with
  | Lt => f
  | Gt => f + 1
  | Eq => if Z.even f then f else f + 1
  end.

(** The positive fraction n/d rounded to nearest, ties to even: with [e] its
    exponent, or the least exponent of the format if that is greater (the
    subnormal range), the result is the multiple of 2^(e - prec + 1) nearest
    to n/d.  [None] is an overflow: the result would be 2^(emax + 1) or
    more. *)
Definition round_pos (prec emax : Z) (n d : positive) : option Q :=
  let e := Z.max (ilog2 n d) (1 - emax) in
  let u := e - (prec - 1) in
  let v := if 0 <=? u
           then inject_Z (nearest_even (Zpos n) (Zpos d * 2 ^ u) * 2 ^ u)
           else Qmake (nearest_even (Zpos n * 2 ^ (- u)) (Zpos d)) (Z.to_pos (2 ^ (- u))) in
  if Qle_bool (inject_Z (2 ^ (emax + 1))) v then None else Some (Qred v).

(** A rational rounded to the format: zero is zero, and otherwise the
    magnitude is rounded and the sign put back; an overflow is the infinity
    of that sign.  The result is in lowest terms. *)
Definition round (prec emax : Z) (q : Q) : number :=
  match Qred q with
  | Qmake 0 _ => Num 0
  | Qmake (Zpos n) d =>
      match round_pos prec emax n d with
      | Some v => Num v
      | None => Infinity false
      end
  | Qmake (Zneg n) d =>
      match round_pos prec emax n d with
      | Some v => Num (- v)
      | None => Infinity true
      end
  end.

Definition binary32 : Q → number := round 24 127.

(** The conversion of a number to a [float] or a [GLfloat]
    ([Math.fround]). *)
Definition fround (a : number) : number :=
  match a with
  | Num q => binary32 q
  | _ => a
  end.

(** [new Float32Array([...])]: each element is converted. *)
Definition Float32Array (elements : list number) : list number :=
  fround <$> elements.

Arguments round prec emax q : simpl never.
Arguments binary32 q : simpl never.

(** [Math.max] and [Math.min] on numbers that are not NaN. *)
Definition Math_max (a b : Q) : Q := Qmax a b.
Definition Math_min (a b : Q) : Q := Qmin a b.

(** A property read that may find nothing: [None] is [undefined]. *)
Definition ToNumber (v : option Z) : number :=
  match v with
  | Some z => Num (inject_Z z)
  | None => NaN
  end.

(** WebIDL conversion of a value to an integer attribute or argument
    ([unsigned long], [GLsizei]): [undefined] becomes [NaN], which becomes 0. *)
Definition ToInt (v : option Z) : Z :=
  match v with
  | Some z => z
  | None => 0
  end.

Inductive Error := TypeError.

(** The members of [Object.prototype], which every object literal inherits
    (the standard ones and those of Annex B). *)
Definition Object_prototype : list string :=
  [ "constructor"; "hasOwnProperty"; "isPrototypeOf"; "propertyIsEnumerable";
    "toLocaleString"; "toString"; "valueOf"; "__proto__";
    "__defineGetter__"; "__defineSetter__"; "__lookupGetter__";
    "__lookupSetter__" ]%string.

End JS.

Abbreviation number := JS.number.
Abbreviation Num := JS.Num.
Abbreviation NaN := JS.NaN.
Abbreviation Infinity := JS.Infinity.

(** ** The WebGL context, as far as the extension drives it *)

Module WebGL.

Inductive Attrib := a_position | a_color.
Inductive Uniform := u_resolution | u_transform.
Inductive BlendFactor := ZERO | ONE | SRC_ALPHA | ONE_MINUS_SRC_ALPHA.

(** The two vertex stages of the repository: the current one maps pixel
    space to clip space; the older one first multiplies the position by the
    [u_transform] matrix. *)
Inductive VertexStage := PixelToClip | TransformThenPixelToClip.

Record Program := { stage : VertexStage; linked : bool }.

(** State of one vertex attribute array. *)
Record Pointer := {
  enabled : bool;
  source : option nat;     (* the buffer bound when the pointer was set *)
  components : nat
}.

(** The attributes fetched for one vertex: the position (pixel space) and
    the colour. *)
Record Vertex := {
  position : number * number;
  color : list number
}.

(** A line as a draw call hands it to the pipeline: its two vertices, the
    line width, and the vertex stage and the uniforms it runs with. *)
Record Line := {
  v0 : Vertex;
  v1 : Vertex;
  thickness : number;
  vertex_stage : VertexStage;
  resolution_seen : number * number;   (* [u_resolution] *)
  transform_seen : list number         (* [u_transform] *)
}.

Definition RGBA : Type := Q * Q * Q * Q.

Record Context := {
  blend : bool;
  blend_func : BlendFactor * BlendFactor;
  clear_value : RGBA;
  viewport_box : Z * Z * Z * Z;
  current_program : option Program;
  resolution_uniform : number * number;
  transform_uniform : list number;
  next_buffer : nat;
  buffers : gmap nat (list number);   (* live buffer objects and their stores *)
  array_buffer : option nat;           (* the ARRAY_BUFFER binding *)
  position_pointer : Pointer;
  color_pointer : Pointer;
  line_width : number;
  background : RGBA;                   (* what the colour buffer was last cleared to *)
  drawn : list Line                    (* the primitives drawn since then *)
}.

Definition no_pointer : Pointer :=
  {| enabled := false; source := None; components := 4 |}.

(** A context as [getContext] returns it; the drawing buffer of a canvas is
    transparent black. *)
Definition fresh (w h : Z) : Context :=
  {| blend := false; blend_func := (ONE, ZERO);
     clear_value := (0, 0, 0, 0)%Q;
     viewport_box := (0, 0, w, h);
     current_program := None;
     resolution_uniform := (Num 0, Num 0);
     transform_uniform := repeat (Num 0) 9;
     next_buffer := 0%nat; buffers := ∅; array_buffer := None;
     position_pointer := no_pointer; color_pointer := no_pointer;
     line_width := Num 1;
     background := (0, 0, 0, 0)%Q; drawn := [] |}.

Definition transparent : RGBA := (0, 0, 0, 0)%Q.

(** A line width the context accepts. *)
Definition positive_width (w : number) : bool :=
  match w with
  | Num q => 0 <? Qnum q
  | Infinity s => negb s
  | NaN => false
  end.

(** The line width after [lineWidth(w)], when it was [old]. *)
Definition accepted_width (old w : number) : number :=
  if positive_width (JS.fround w) then JS.fround w else old.

Section Calls.
Variable g : Context.

Definition enable_BLEND : Context :=
  {| blend := true; blend_func := blend_func g; clear_value := clear_value g;
     viewport_box := viewport_box g; current_program := current_program g;
     resolution_uniform := resolution_uniform g;
     transform_uniform := transform_uniform g; next_buffer := next_buffer g;
     buffers := buffers g; array_buffer := array_buffer g;
     position_pointer := position_pointer g; color_pointer := color_pointer g;
     line_width := line_width g; background := background g; drawn := drawn g |}.

Definition blendFunc (s d : BlendFactor) : Context :=
  {| blend := blend g; blend_func := (s, d); clear_value := clear_value g;
     viewport_box := viewport_box g; current_program := current_program g;
     resolution_uniform := resolution_uniform g;
     transform_uniform := transform_uniform g; next_buffer := next_buffer g;
     buffers := buffers g; array_buffer := array_buffer g;
     position_pointer := position_pointer g; color_pointer := color_pointer g;
     line_width := line_width g; background := background g; drawn := drawn g |}.

Definition clearColor (r gr b a : Q) : Context :=
  {| blend := blend g; blend_func := blend_func g; clear_value := (r, gr, b, a);
     viewport_box := viewport_box g; current_program := current_program g;
     resolution_uniform := resolution_uniform g;
     transform_uniform := transform_uniform g; next_buffer := next_buffer g;
     buffers := buffers g; array_buffer := array_buffer g;
     position_pointer := position_pointer g; color_pointer := color_pointer g;
     line_width := line_width g; background := background g; drawn := drawn g |}.

(** [clear(COLOR_BUFFER_BIT)]: the whole colour buffer takes the clear value. *)
Definition clear : Context :=
  {| blend := blend g; blend_func := blend_func g; clear_value := clear_value g;
     viewport_box := viewport_box g; current_program := current_program g;
     resolution_uniform := resolution_uniform g;
     transform_uniform := transform_uniform g; next_buffer := next_buffer g;
     buffers := buffers g; array_buffer := array_buffer g;
     position_pointer := position_pointer g; color_pointer := color_pointer g;
     line_width := line_width g; background := clear_value g; drawn := [] |}.

(** The canvas was given a new size: its drawing buffer is reallocated,
    transparent black. *)
Definition resized : Context :=
  {| blend := blend g; blend_func := blend_func g; clear_value := clear_value g;
     viewport_box := viewport_box g; current_program := current_program g;
     resolution_uniform := resolution_uniform g;
     transform_uniform := transform_uniform g; next_buffer := next_buffer g;
     buffers := buffers g; array_buffer := array_buffer g;
     position_pointer := position_pointer g; color_pointer := color_pointer g;
     line_width := line_width g; background := transparent; drawn := [] |}.

Definition viewport (x y w h : Z) : Context :=
  {| blend := blend g; blend_func := blend_func g; clear_value := clear_value g;
     viewport_box := (x, y, w, h); current_program := current_program g;
     resolution_uniform := resolution_uniform g;
     transform_uniform := transform_uniform g; next_buffer := next_buffer g;
     buffers := buffers g; array_buffer := array_buffer g;
     position_pointer := position_pointer g; color_pointer := color_pointer g;
     line_width := line_width g; background := background g; drawn := drawn g |}.

(** [useProgram]: a program that is not linked raises INVALID_OPERATION
    inside the context (no exception) and the current program stays. *)
Definition useProgram (p : Program) : Context :=
  if linked p then
    {| blend := blend g; blend_func := blend_func g; clear_value := clear_value g;
       viewport_box := viewport_box g; current_program := Some p;
       resolution_uniform := resolution_uniform g;
       transform_uniform := transform_uniform g; next_buffer := next_buffer g;
       buffers := buffers g; array_buffer := array_buffer g;
       position_pointer := position_pointer g; color_pointer := color_pointer g;
       line_width := line_width g; background := background g; drawn := drawn g |}
  else g.

(** [uniform2f]: needs a current program and a [vec2] uniform; the two
    arguments are [GLfloat]. *)
Definition uniform2f (loc : Uniform) (x y : number) : Context :=
  match current_program g, loc with
  | Some _, u_resolution =>
    {| blend := blend g; blend_func := blend_func g; clear_value := clear_value g;
       viewport_box := viewport_box g; current_program := current_program g;
       resolution_uniform := (JS.fround x, JS.fround y);
       transform_uniform := transform_uniform g; next_buffer := next_buffer g;
       buffers := buffers g; array_buffer := array_buffer g;
       position_pointer := position_pointer g; color_pointer := color_pointer g;
       line_width := line_width g; background := background g; drawn := drawn g |}
  | _, _ => g
  end.

(** [uniformMatrix3fv] with [transpose = false]: nine numbers, column-major,
    converted to a [Float32Array]. *)
Definition uniformMatrix3fv (loc : Uniform) (m : list number) : Context :=
  match current_program g, loc with
  | Some _, u_transform =>
    if Nat.eqb (length m) 9 then
    {| blend := blend g; blend_func := blend_func g; clear_value := clear_value g;
       viewport_box := viewport_box g; current_program := current_program g;
       resolution_uniform := resolution_uniform g;
       transform_uniform := JS.Float32Array m; next_buffer := next_buffer g;
       buffers := buffers g; array_buffer := array_buffer g;
       position_pointer := position_pointer g; color_pointer := color_pointer g;
       line_width := line_width g; background := background g; drawn := drawn g |}
    else g
  | _, _ => g
  end.

(** [createBuffer]: a new buffer object, with an empty store; the second
    component is its name. *)
Definition createBuffer : Context * nat :=
  ({| blend := blend g; blend_func := blend_func g; clear_value := clear_value g;
      viewport_box := viewport_box g; current_program := current_program g;
      resolution_uniform := resolution_uniform g;
      transform_uniform := transform_uniform g; next_buffer := S (next_buffer g);
      buffers := <[next_buffer g := []]> (buffers g); array_buffer := array_buffer g;
      position_pointer := position_pointer g; color_pointer := color_pointer g;
      line_width := line_width g; background := background g; drawn := drawn g |},
   next_buffer g).

Definition with_array_buffer (v : option nat) : Context :=
  {| blend := blend g; blend_func := blend_func g; clear_value := clear_value g;
     viewport_box := viewport_box g; current_program := current_program g;
     resolution_uniform := resolution_uniform g;
     transform_uniform := transform_uniform g; next_buffer := next_buffer g;
     buffers := buffers g; array_buffer := v;
     position_pointer := position_pointer g; color_pointer := color_pointer g;
     line_width := line_width g; background := background g; drawn := drawn g |}.

(** [bindBuffer(ARRAY_BUFFER, b)]: a deleted buffer cannot be bound. *)
Definition bindBuffer (b : nat) : Context :=
  match buffers g !! b with
  | Some _ => with_array_buffer (Some b)
  | None => g
  end.

(** [bufferData(ARRAY_BUFFER, data, STATIC_DRAW)]: fills the bound buffer. *)
Definition bufferData (data : list number) : Context :=
  match array_buffer g with
  | Some b =>
    {| blend := blend g; blend_func := blend_func g; clear_value := clear_value g;
       viewport_box := viewport_box g; current_program := current_program g;
       resolution_uniform := resolution_uniform g;
       transform_uniform := transform_uniform g; next_buffer := next_buffer g;
       buffers := <[b := data]> (buffers g); array_buffer := array_buffer g;
       position_pointer := position_pointer g; color_pointer := color_pointer g;
       line_width := line_width g; background := background g; drawn := drawn g |}
  | None => g
  end.

Definition pointer (a : Attrib) : Pointer :=
  match a with
  | a_position => position_pointer g
  | a_color => color_pointer g
  end.

Definition with_pointer (a : Attrib) (p : Pointer) : Context :=
  {| blend := blend g; blend_func := blend_func g; clear_value := clear_value g;
     viewport_box := viewport_box g; current_program := current_program g;
     resolution_uniform := resolution_uniform g;
     transform_uniform := transform_uniform g; next_buffer := next_buffer g;
     buffers := buffers g; array_buffer := array_buffer g;
     position_pointer := match a with a_position => p | a_color => position_pointer g end;
     color_pointer := match a with a_color => p | a_position => color_pointer g end;
     line_width := line_width g; background := background g; drawn := drawn g |}.

Definition enableVertexAttribArray (a : Attrib) : Context :=
  with_pointer a {| enabled := true; source := source (pointer a);
                    components := components (pointer a) |}.

(** [vertexAttribPointer(a, size, FLOAT, false, 0, 0)]: tightly packed
    floats of the buffer bound now; without a bound buffer the call is refused. *)
Definition vertexAttribPointer (a : Attrib) (size : nat) : Context :=
  match array_buffer g with
  | Some b =>
      with_pointer a {| enabled := enabled (pointer a); source := Some b;
                        components := size |}
  | None => g
  end.

(** [lineWidth]: the argument is a [GLfloat]; a width that is not positive,
    NaN included, raises INVALID_VALUE inside the context (no exception) and
    the width stays. *)
Definition lineWidth (w : number) : Context :=
  {| blend := blend g; blend_func := blend_func g; clear_value := clear_value g;
     viewport_box := viewport_box g; current_program := current_program g;
     resolution_uniform := resolution_uniform g;
     transform_uniform := transform_uniform g; next_buffer := next_buffer g;
     buffers := buffers g; array_buffer := array_buffer g;
     position_pointer := position_pointer g; color_pointer := color_pointer g;
     line_width := accepted_width (line_width g) w;
     background := background g; drawn := drawn g |}.

Definition detach (b : nat) (p : Pointer) : Pointer :=
  if bool_decide (source p = Some b)
  then {| enabled := enabled p; source := None; components := components p |}
  else p.

(** [deleteBuffer]: the object is destroyed and every binding to it in the
    context is reset. *)
Definition deleteBuffer (b : nat) : Context :=
  {| blend := blend g; blend_func := blend_func g; clear_value := clear_value g;
     viewport_box := viewport_box g; current_program := current_program g;
     resolution_uniform := resolution_uniform g;
     transform_uniform := transform_uniform g; next_buffer := next_buffer g;
     buffers := delete b (buffers g);
     array_buffer := if bool_decide (array_buffer g = Some b) then None else array_buffer g;
     position_pointer := detach b (position_pointer g);
     color_pointer := detach b (color_pointer g);
     line_width := line_width g; background := background g; drawn := drawn g |}.

(** The value of attribute [a] for vertex [i]: [components] consecutive
    floats of the source buffer, or the constant (0,0,0,1) when the array is
    disabled.  [None] when the array is enabled and has no buffer, or the
    buffer is too short: the draw call is then refused. *)
Definition fetch (a : Attrib) (i : nat) : option (list number) :=
  let p := pointer a in
  if enabled p then
    match source p with
    | Some b =>
        match buffers g !! b with
        | Some store =>
            let v := take (components p) (drop (i * components p) store) in
            if Nat.eqb (length v) (components p) then Some v else None
        | None => None
        end
    | None => None
    end
  else Some [Num 0; Num 0; Num 0; Num 1].

Definition with_drawn (lines : list Line) : Context :=
  {| blend := blend g; blend_func := blend_func g; clear_value := clear_value g;
     viewport_box := viewport_box g; current_program := current_program g;
     resolution_uniform := resolution_uniform g;
     transform_uniform := transform_uniform g; next_buffer := next_buffer g;
     buffers := buffers g; array_buffer := array_buffer g;
     position_pointer := position_pointer g; color_pointer := color_pointer g;
     line_width := line_width g; background := background g; drawn := lines |}.

End Calls.

(** A call is unfolded once the context it is applied to is known; a call
    that looks a buffer up is unfolded by hand. *)
Arguments enable_BLEND !g.
Arguments blendFunc !g s d.
Arguments clearColor !g r gr b a.
Arguments clear !g.
Arguments resized !g.
Arguments viewport !g x y w h.
Arguments useProgram !g p.
Arguments uniform2f !g loc x y.
Arguments uniformMatrix3fv !g loc m.
Arguments createBuffer !g.
Arguments bindBuffer g b : simpl never.
Arguments bufferData !g data.
Arguments pointer !g a.
Arguments with_pointer !g a p.
Arguments with_array_buffer !g v.
Arguments with_drawn !g lines.
Arguments enableVertexAttribArray !g a.
Arguments vertexAttribPointer !g a size.
Arguments lineWidth !g w.
Arguments deleteBuffer !g b.
Arguments fetch g a i : simpl never.

(** Missing components of an attribute are taken from (0,0,0,1). *)
Definition vec2 (v : list number) : number * number :=
  (nth 0 v (Num 0), nth 1 v (Num 0)).

Definition vec4 (v : list number) : list number :=
  [nth 0 v (Num 0); nth 1 v (Num 0); nth 2 v (Num 0); nth 3 v (Num 1)].

(** The vertices of a draw call. *)
Definition shade (g : Context) (i : nat) : option Vertex :=
  match fetch g a_position i, fetch g a_color i with
  | Some p, Some c => Some {| position := vec2 p; color := vec4 c |}
  | _, _ => None
  end.

(** [drawArrays(LINES, 0, 2)]: one line between vertices 0 and 1, with the
    current line width, program and uniforms.  Without a current program, or
    when a vertex cannot be fetched, the call is refused and nothing is
    drawn. *)
Definition drawArrays_LINES_0_2 (g : Context) : Context :=
  match current_program g with
  | Some p =>
      match shade g 0, shade g 1 with
      | Some a, Some b =>
          with_drawn g
            (drawn g ++ [ {| v0 := a; v1 := b; thickness := line_width g;
                             vertex_stage := stage p;
                             resolution_seen := resolution_uniform g;
                             transform_seen := transform_uniform g |} ])
      | _, _ => g
      end
  | None => g
  end.

Arguments shade g i : simpl never.
Arguments drawArrays_LINES_0_2 g : simpl never.

(** *** The vertex stage

    The floating-point operations of a shader are those of the GPU: the
    shading language fixes neither their rounding nor what they make of an
    infinity. *)
Record Arithmetic := {
  plus : number → number → number;
  minus : number → number → number;
  times : number → number → number;
  over : number → number → number
}.

Section VertexStage.
Variable gpu : Arithmetic.

(** [mat3 * vec3(p, 1.0)], the matrix given column-major; its [xy]. *)
Definition transform (m : list number) (p : number * number) : number * number :=
  let e k := nth k m (Num 0) in
  (plus gpu (plus gpu (times gpu (e 0%nat) (fst p)) (times gpu (e 3%nat) (snd p)))
            (times gpu (e 6%nat) (Num 1)),
   plus gpu (plus gpu (times gpu (e 1%nat) (fst p)) (times gpu (e 4%nat) (snd p)))
            (times gpu (e 7%nat) (Num 1))).

(** [(p / u_resolution) * 2.0 - 1.0], then [clipSpace.y *= -1.0]. *)
Definition pixel_to_clip (res p : number * number) : number * number :=
  (minus gpu (times gpu (over gpu (fst p) (fst res)) (Num 2)) (Num 1),
   times gpu (minus gpu (times gpu (over gpu (snd p) (snd res)) (Num 2)) (Num 1))
             (Num (-1))).

(** The vertex stage [s] on the position [p], with the uniforms [res]
    ([u_resolution]) and [m] ([u_transform]). *)
Definition run_vertex_stage (s : VertexStage) (res : number * number)
    (m : list number) (p : number * number) : number * number :=
  match s with
  | PixelToClip => pixel_to_clip res p
  | TransformThenPixelToClip => pixel_to_clip res (transform m p)
  end.

(** The clip-space position of a vertex of a line. *)
Definition clip (ln : Line) (v : Vertex) : number * number :=
  run_vertex_stage (vertex_stage ln) (resolution_seen ln) (transform_seen ln)
    (position v).

End VertexStage.

End WebGL.

(** ** What the host passes to a block *)

Module Scratch.

(** [util.target.id], the identifier of the sprite that runs the block. *)
Record Util := { target_id : string }.

Record QualityArgs := { QUALITY : string }.
Record ColorArgs (Value : Type) := { R : Value; G : Value; B : Value }.
Record WidthArgs (Value : Type) := { WIDTH : Value }.
Record LineArgs (Value : Type) := { X1 : Value; Y1 : Value; X2 : Value; Y2 : Value }.

Arguments R {Value}.
Arguments G {Value}.
Arguments B {Value}.
Arguments WIDTH {Value}.
Arguments X1 {Value}.
Arguments Y1 {Value}.
Arguments X2 {Value}.
Arguments Y2 {Value}.

End Scratch.

(** ** The extension instance *)

Module Polyair.

Record Dim := { width : Z; height : Z }.

(** What [this.resolution] can hold: an entry of the preset table, or a
    member of [Object.prototype] that the table lookup found up the
    prototype chain (a function, or the prototype itself). *)
Inductive Resolution :=
| Preset (d : Dim)
| Inherited (key : string).

(** [this.resolution.width] and [.height]; an inherited member has neither
    ([None] is [undefined]). *)
Definition res_width (v : Resolution) : option Z :=
  match v with
  | Preset d => Some (width d)
  | Inherited _ => None
  end.

Definition res_height (v : Resolution) : option Z :=
  match v with
  | Preset d => Some (height d)
  | Inherited _ => None
  end.

Record Canvas := { canvas_width : Z; canvas_height : Z }.

Record Color := { r : Q; g : Q; b : Q; a : Q }.

Record ProgramInfo := {
  position_loc : WebGL.Attrib;
  color_loc : WebGL.Attrib;
  resolution_loc : WebGL.Uniform;
  transform_loc : option WebGL.Uniform    (* only the older variant has it *)
}.

Record Instance := {
  glCanvas : option Canvas;
  gl : option WebGL.Context;
  resolution : Resolution;
  targetResolution : string;
  gpuSprites : gset string;
  shaderProgram : option WebGL.Program;
  programInfo : option ProgramInfo;
  penColor : Color;
  penWidth : Q
}.

(** How a method call ends. *)
Inductive Completion (A : Type) :=
| Normal (v : A) (this : Instance)
| Throw (e : JS.Error) (this : Instance).

Arguments Normal {A}.
Arguments Throw {A}.

Definition final {A} (c : Completion A) : Instance :=
  match c with
  | Normal _ this => this
  | Throw _ this => this
  end.

Definition throws {A} (c : Completion A) : bool :=
  match c with
  | Normal _ _ => false
  | Throw _ _ => true
  end.

(** What the browser will answer during initialisation. *)
Record Browser := {
  webgl2 : bool;              (* getContext('webgl2') gives a context *)
  webgl : bool;               (* getContext('webgl') gives a context *)
  vertex_compiles : bool;     (* COMPILE_STATUS of the vertex shader *)
  fragment_compiles : bool;   (* COMPILE_STATUS of the fragment shader *)
  links : bool                (* LINK_STATUS of the program *)
}.

Section Fields.
Variable this : Instance.

Definition set_glCanvas (v : option Canvas) : Instance :=
  {| glCanvas := v; gl := gl this; resolution := resolution this;
     targetResolution := targetResolution this; gpuSprites := gpuSprites this;
     shaderProgram := shaderProgram this; programInfo := programInfo this;
     penColor := penColor this; penWidth := penWidth this |}.

Definition set_gl (v : option WebGL.Context) : Instance :=
  {| glCanvas := glCanvas this; gl := v; resolution := resolution this;
     targetResolution := targetResolution this; gpuSprites := gpuSprites this;
     shaderProgram := shaderProgram this; programInfo := programInfo this;
     penColor := penColor this; penWidth := penWidth this |}.

Definition set_resolution (v : Resolution) : Instance :=
  {| glCanvas := glCanvas this; gl := gl this; resolution := v;
     targetResolution := targetResolution this; gpuSprites := gpuSprites this;
     shaderProgram := shaderProgram this; programInfo := programInfo this;
     penColor := penColor this; penWidth := penWidth this |}.

Definition set_targetResolution (v : string) : Instance :=
  {| glCanvas := glCanvas this; gl := gl this; resolution := resolution this;
     targetResolution := v; gpuSprites := gpuSprites this;
     shaderProgram := shaderProgram this; programInfo := programInfo this;
     penColor := penColor this; penWidth := penWidth this |}.

Definition set_gpuSprites (v : gset string) : Instance :=
  {| glCanvas := glCanvas this; gl := gl this; resolution := resolution this;
     targetResolution := targetResolution this; gpuSprites := v;
     shaderProgram := shaderProgram this; programInfo := programInfo this;
     penColor := penColor this; penWidth := penWidth this |}.

Definition set_shaderProgram (v : option WebGL.Program) : Instance :=
  {| glCanvas := glCanvas this; gl := gl this; resolution := resolution this;
     targetResolution := targetResolution this; gpuSprites := gpuSprites this;
     shaderProgram := v; programInfo := programInfo this;
     penColor := penColor this; penWidth := penWidth this |}.

Definition set_programInfo (v : option ProgramInfo) : Instance :=
  {| glCanvas := glCanvas this; gl := gl this; resolution := resolution this;
     targetResolution := targetResolution this; gpuSprites := gpuSprites this;
     shaderProgram := shaderProgram this; programInfo := v;
     penColor := penColor this; penWidth := penWidth this |}.

Definition set_penColor (v : Color) : Instance :=
  {| glCanvas := glCanvas this; gl := gl this; resolution := resolution this;
     targetResolution := targetResolution this; gpuSprites := gpuSprites this;
     shaderProgram := shaderProgram this; programInfo := programInfo this;
     penColor := v; penWidth := penWidth this |}.

Definition set_penWidth (v : Q) : Instance :=
  {| glCanvas := glCanvas this; gl := gl this; resolution := resolution this;
     targetResolution := targetResolution this; gpuSprites := gpuSprites this;
     shaderProgram := shaderProgram this; programInfo := programInfo this;
     penColor := penColor this; penWidth := v |}.

(** [this.glCanvas.width = w; this.glCanvas.height = h] on an existing
    canvas: the attributes are [unsigned long]s, and the drawing buffer of the
    canvas's context, when it has one, is reallocated. *)
Definition canvas_set_size (w h : option Z) : Instance :=
  {| glCanvas := Some {| canvas_width := JS.ToInt w; canvas_height := JS.ToInt h |};
     gl := WebGL.resized <$> gl this; resolution := resolution this;
     targetResolution := targetResolution this; gpuSprites := gpuSprites this;
     shaderProgram := shaderProgram this; programInfo := programInfo this;
     penColor := penColor this; penWidth := penWidth this |}.

End Fields.

(** The table literal of [setResolution], the same in both variants. *)
Definition p480 : Dim := {| width := 854; height := 480 |}.
Definition p720 : Dim := {| width := 1280; height := 720 |}.
Definition p1080 : Dim := {| width := 1920; height := 1080 |}.
Definition p2K : Dim := {| width := 2560; height := 1440 |}.
Definition p4K : Dim := {| width := 3840; height := 2160 |}.

Definition resolutions : gmap string Dim :=
  list_to_map [ ("480p", p480); ("720p", p720); ("1080p", p1080);
                ("2K", p2K); ("4K", p4K) ]%string.

(** [resolutions[quality]]: an own property of the literal, else a member
    of [Object.prototype], else [undefined] ([None]). *)
Definition resolutions_get (quality : string) : option Resolution :=
  match resolutions !! quality with
  | Some d => Some (Preset d)
  | None =>
      if bool_decide (quality ∈ JS.Object_prototype)
      then Some (Inherited quality)
      else None
  end.

(** [resolutions[quality] || resolutions['1080p']]: objects and functions
    are truthy, [undefined] is not. *)
Definition resolutions_or_1080p (quality : string) : Resolution :=
  match resolutions_get quality with
  | Some v => v
  | None => Preset p1080
  end.

(** [this.glCanvas.getContext(kind, ...)] for a kind the browser supports or
    not; the viewport of a new context is the canvas. *)
Definition getContext (supported : bool) (this : Instance) : option WebGL.Context :=
  match glCanvas this with
  | Some c =>
      if supported
      then Some (WebGL.fresh (canvas_width c) (canvas_height c))
      else None
  | None => None
  end.

Inductive ShaderType := VERTEX_SHADER | FRAGMENT_SHADER.

(** [compileShader(source, type)], the same in both variants: the shader
    object, or [null] ([None]) when COMPILE_STATUS is false. *)
Definition compileShader (browser : Browser) (type : ShaderType) : option ShaderType :=
  if match type with
     | VERTEX_SHADER => vertex_compiles browser
     | FRAGMENT_SHADER => fragment_compiles browser
     end
  then Some type
  else None.

(** [createProgram], two [attachShader]s and [linkProgram] on the vertex
    stage [s]. *)
Definition linkProgram (browser : Browser) (s : WebGL.VertexStage) : WebGL.Program :=
  {| WebGL.stage := s; WebGL.linked := links browser |}.

(** [document.createElement('canvas')]. *)
Definition createElement_canvas : Canvas :=
  {| canvas_width := 300; canvas_height := 150 |}.

(** The fields as the constructor sets them before it calls [initWebGL]. *)
Definition fields : Instance :=
  {| glCanvas := None; gl := None;
     resolution := Preset {| width := 854; height := 480 |};
     targetResolution := "480p";
     gpuSprites := ∅;
     shaderProgram := None; programInfo := None;
     penColor := {| r := 1; g := 1; b := 1; a := 1 |};
     penWidth := 1 |}.

End Polyair.

(** ** Block descriptors, as [getInfo] hands them to the host *)

Module Descriptor.

Inductive BlockType := COMMAND | BOOLEAN | REPORTER.
Inductive ArgumentType := STRING | NUMBER.
Inductive Default := Text (s : string) | Number (n : Z).

Record Argument := {
  type : ArgumentType;
  menu : option string;
  defaultValue : Default
}.

(** An entry of [blocks]: a block, or the separator ['---']. *)
Inductive Entry :=
| Block (opcode : string) (blockType : BlockType) (text : string)
        (arguments : list (string * Argument))
| Separator.

Record Menu := { acceptReporters : bool; items : list string }.

Record Info := {
  id : string;
  name : string;
  color1 : string;
  color2 : string;
  color3 : string;
  blocks : list Entry;
  menus : list (string * Menu)
}.

Definition number (n : Z) : Argument :=
  {| type := NUMBER; menu := None; defaultValue := Number n |}.

End Descriptor.

(** ** The current variant: [src/polyair-extension.js] *)

Module Current.
Import Polyair.

Section Initialisation.
Variable browser : Browser.

Definition initShaders (this : Instance) : Instance :=
  let vertexShader := compileShader browser VERTEX_SHADER in
  let fragmentShader := compileShader browser FRAGMENT_SHADER in
  match vertexShader, fragmentShader with
  | Some _, Some _ =>
      let this := set_shaderProgram this (Some (linkProgram browser WebGL.PixelToClip)) in
      match shaderProgram this with
      | Some program =>
          if negb (WebGL.linked program) then this
          else
            set_programInfo this
              (Some {| position_loc := WebGL.a_position;
                       color_loc := WebGL.a_color;
                       resolution_loc := WebGL.u_resolution;
                       transform_loc := None |})
      | None => this
      end
  | _, _ => this
  end.

(** The body of the [try]; nothing in it throws in this model, so the
    [catch] is never entered. *)
Definition initWebGL (this : Instance) : Instance :=
  let this := set_glCanvas this (Some createElement_canvas) in
  let this := canvas_set_size this (res_width (resolution this))
                                   (res_height (resolution this)) in
  let this := set_gl this (getContext (webgl2 browser) this) in
  let this := match gl this with
              | None => set_gl this (getContext (webgl browser) this)
              | Some _ => this
              end in
  match gl this with
  | None => this
  | Some _ =>
      let this := initShaders this in
      match gl this with
      | Some gl0 =>
          let gl1 := WebGL.enable_BLEND gl0 in
          let gl2 := WebGL.blendFunc gl1 WebGL.SRC_ALPHA WebGL.ONE_MINUS_SRC_ALPHA in
          let gl3 := WebGL.clearColor gl2 0 0 0 0 in
          set_gl this (Some (WebGL.clear gl3))
      | None => this
      end
  end.

Definition constructor : Instance := initWebGL fields.

End Initialisation.

Section Blocks.
Context {Value : Type} (toNumber : Value → Q).

Definition enableGPURendering (util : Scratch.Util) (this : Instance) : Completion unit :=
  let targetId := Scratch.target_id util in
  Normal tt (set_gpuSprites this ({[ targetId ]} ∪ gpuSprites this)).

Definition disableGPURendering (util : Scratch.Util) (this : Instance) : Completion unit :=
  let targetId := Scratch.target_id util in
  Normal tt (set_gpuSprites this (gpuSprites this ∖ {[ targetId ]})).

Definition isGPUEnabled (util : Scratch.Util) (this : Instance) : Completion bool :=
  Normal (bool_decide (Scratch.target_id util ∈ gpuSprites this)) this.

Definition setResolution (args : Scratch.QualityArgs) (this : Instance) : Completion unit :=
  let quality := Scratch.QUALITY args in
  let this := set_resolution this (resolutions_or_1080p quality) in
  let this := set_targetResolution this quality in
  let this := match glCanvas this with
              | Some _ => canvas_set_size this (res_width (resolution this))
                                               (res_height (resolution this))
              | None => this
              end in
  let this := match gl this with
              | Some gl0 =>
                  let gl1 := WebGL.viewport gl0 0 0 (JS.ToInt (res_width (resolution this)))
                                                    (JS.ToInt (res_height (resolution this))) in
                  let gl2 := WebGL.clearColor gl1 0 0 0 0 in
                  set_gl this (Some (WebGL.clear gl2))
              | None => this
              end in
  Normal tt this.

Definition getResolutionWidth (this : Instance) : Completion (option Z) :=
  Normal (res_width (resolution this)) this.

Definition getResolutionHeight (this : Instance) : Completion (option Z) :=
  Normal (res_height (resolution this)) this.

Definition setPenColor (args : Scratch.ColorArgs Value) (this : Instance) : Completion unit :=
  let r := (JS.Math_max 0 (JS.Math_min 255 (toNumber (Scratch.R args))) / 255)%Q in
  let g := (JS.Math_max 0 (JS.Math_min 255 (toNumber (Scratch.G args))) / 255)%Q in
  let b := (JS.Math_max 0 (JS.Math_min 255 (toNumber (Scratch.B args))) / 255)%Q in
  Normal tt (set_penColor this {| r := r; g := g; b := b; a := 1 |}).

Definition setPenWidth (args : Scratch.WidthArgs Value) (this : Instance) : Completion unit :=
  Normal tt (set_penWidth this (JS.Math_max 1 (toNumber (Scratch.WIDTH args)))).

Definition drawGPULine (args : Scratch.LineArgs Value) (this : Instance) : Completion unit :=
  match gl this, shaderProgram this with
  | Some gl0, Some program =>
      let x1 := Num (toNumber (Scratch.X1 args)) in
      let y1 := Num (toNumber (Scratch.Y1 args)) in
      let x2 := Num (toNumber (Scratch.X2 args)) in
      let y2 := Num (toNumber (Scratch.Y2 args)) in
      let gl1 := WebGL.useProgram gl0 program in
      match programInfo this with
      | None => Throw JS.TypeError (set_gl this (Some gl1))
      | Some info =>
          let gl2 := WebGL.uniform2f gl1 (resolution_loc info)
                       (JS.ToNumber (res_width (resolution this)))
                       (JS.ToNumber (res_height (resolution this))) in
          let centerX := JS.div (JS.ToNumber (res_width (resolution this))) (Num 2) in
          let centerY := JS.div (JS.ToNumber (res_height (resolution this))) (Num 2) in
          let vertices :=
            JS.Float32Array
              [ JS.add centerX x1; JS.sub centerY y1;
                JS.add centerX x2; JS.sub centerY y2 ] in
          let colors :=
            JS.Float32Array
              [ Num (r (penColor this)); Num (g (penColor this));
                Num (b (penColor this)); Num (a (penColor this));
                Num (r (penColor this)); Num (g (penColor this));
                Num (b (penColor this)); Num (a (penColor this)) ] in
          let (gl3, positionBuffer) := WebGL.createBuffer gl2 in
          let gl4 := WebGL.bindBuffer gl3 positionBuffer in
          let gl5 := WebGL.bufferData gl4 vertices in
          let gl6 := WebGL.enableVertexAttribArray gl5 (position_loc info) in
          let gl7 := WebGL.vertexAttribPointer gl6 (position_loc info) 2 in
          let (gl8, colorBuffer) := WebGL.createBuffer gl7 in
          let gl9 := WebGL.bindBuffer gl8 colorBuffer in
          let gl10 := WebGL.bufferData gl9 colors in
          let gl11 := WebGL.enableVertexAttribArray gl10 (color_loc info) in
          let gl12 := WebGL.vertexAttribPointer gl11 (color_loc info) 4 in
          let gl13 := WebGL.lineWidth gl12 (Num (penWidth this)) in
          let gl14 := WebGL.drawArrays_LINES_0_2 gl13 in
          let gl15 := WebGL.deleteBuffer gl14 positionBuffer in
          let gl16 := WebGL.deleteBuffer gl15 colorBuffer in
          Normal tt (set_gl this (Some gl16))
      end
  | _, _ => Normal tt this
  end.

Definition clearGPUCanvas (this : Instance) : Completion unit :=
  match gl this with
  | None => Normal tt this
  | Some gl0 =>
      let gl1 := WebGL.clearColor gl0 0 0 0 0 in
      Normal tt (set_gl this (Some (WebGL.clear gl1)))
  end.

End Blocks.

Definition getInfo : Descriptor.Info :=
  {| Descriptor.id := "polyair";
     Descriptor.name := "Polyair";
     Descriptor.color1 := "#9966FF";
     Descriptor.color2 := "#774DCB";
     Descriptor.color3 := "#664DBF";
     Descriptor.blocks :=
       [ Descriptor.Block "enableGPURendering" Descriptor.COMMAND
           "enable GPU rendering for this sprite" [];
         Descriptor.Block "disableGPURendering" Descriptor.COMMAND
           "disable GPU rendering for this sprite" [];
         Descriptor.Block "isGPUEnabled" Descriptor.BOOLEAN
           "GPU rendering enabled?" [];
         Descriptor.Separator;
         Descriptor.Block "setResolution" Descriptor.COMMAND
           "set render quality to [QUALITY]"
           [ ("QUALITY", {| Descriptor.type := Descriptor.STRING;
                            Descriptor.menu := Some "qualityMenu";
                            Descriptor.defaultValue := Descriptor.Text "1080p" |}) ];
         Descriptor.Block "getResolutionWidth" Descriptor.REPORTER
           "resolution width" [];
         Descriptor.Block "getResolutionHeight" Descriptor.REPORTER
           "resolution height" [];
         Descriptor.Separator;
         Descriptor.Block "setPenColor" Descriptor.COMMAND
           "set GPU pen color to r:[R] g:[G] b:[B]"
           [ ("R", Descriptor.number 255); ("G", Descriptor.number 255);
             ("B", Descriptor.number 255) ];
         Descriptor.Block "setPenWidth" Descriptor.COMMAND
           "set GPU pen width to [WIDTH]"
           [ ("WIDTH", Descriptor.number 1) ];
         Descriptor.Block "drawGPULine" Descriptor.COMMAND
           "GPU draw line from x:[X1] y:[Y1] to x:[X2] y:[Y2]"
           [ ("X1", Descriptor.number 0); ("Y1", Descriptor.number 0);
             ("X2", Descriptor.number 100); ("Y2", Descriptor.number 100) ];
         Descriptor.Block "clearGPUCanvas" Descriptor.COMMAND
           "clear GPU canvas" [] ];
     Descriptor.menus :=
       [ ("qualityMenu",
          {| Descriptor.acceptReporters := true;
             Descriptor.items := [ "480p"; "720p"; "1080p"; "2K"; "4K" ] |}) ]
  |}%string.

End Current.

(** ** The older variant: [src/unnamed/part_000] *)

Module Older.
Import Polyair.

Section Initialisation.
Variable browser : Browser.

Definition initShaders (this : Instance) : Instance :=
  let vertexShader := compileShader browser VERTEX_SHADER in
  let fragmentShader := compileShader browser FRAGMENT_SHADER in
  match vertexShader, fragmentShader with
  | Some _, Some _ =>
      let this := set_shaderProgram this
                    (Some (linkProgram browser WebGL.TransformThenPixelToClip)) in
      match shaderProgram this with
      | Some program =>
          if negb (WebGL.linked program) then this
          else
            let this := set_gl this ((λ gl0, WebGL.useProgram gl0 program) <$> gl this) in
            set_programInfo this
              (Some {| position_loc := WebGL.a_position;
                       color_loc := WebGL.a_color;
                       resolution_loc := WebGL.u_resolution;
                       transform_loc := Some WebGL.u_transform |})
      | None => this
      end
  | _, _ => this
  end.

(** No [try] here; the canvas's [style.display] is not modelled. *)
Definition initWebGL (this : Instance) : Instance :=
  let this := set_glCanvas this (Some createElement_canvas) in
  let this := canvas_set_size this (res_width (resolution this))
                                   (res_height (resolution this)) in
  let this := set_gl this (getContext (webgl2 browser) this) in
  let this := match gl this with
              | None => set_gl this (getContext (webgl browser) this)
              | Some _ => this
              end in
  match gl this with
  | None => this
  | Some _ =>
      let this := initShaders this in
      match gl this with
      | Some gl0 =>
          let gl1 := WebGL.enable_BLEND gl0 in
          let gl2 := WebGL.blendFunc gl1 WebGL.SRC_ALPHA WebGL.ONE_MINUS_SRC_ALPHA in
          let gl3 := WebGL.clearColor gl2 0 0 0 0 in
          set_gl this (Some (WebGL.clear gl3))
      | None => this
      end
  end.

(** The constructor of this variant does not mention [programInfo]: it is
    [undefined] until [initShaders] sets it, [None] here as well. *)
Definition constructor : Instance := initWebGL fields.

End Initialisation.

Section Blocks.
Context {Value : Type} (toNumber : Value → Q).

Definition enableGPURendering (util : Scratch.Util) (this : Instance) : Completion unit :=
  let targetId := Scratch.target_id util in
  Normal tt (set_gpuSprites this ({[ targetId ]} ∪ gpuSprites this)).

Definition disableGPURendering (util : Scratch.Util) (this : Instance) : Completion unit :=
  let targetId := Scratch.target_id util in
  Normal tt (set_gpuSprites this (gpuSprites this ∖ {[ targetId ]})).

Definition isGPUEnabled (util : Scratch.Util) (this : Instance) : Completion bool :=
  Normal (bool_decide (Scratch.target_id util ∈ gpuSprites this)) this.

(** Neither [this.glCanvas] nor [this.gl] is tested before it is used: a
    property access on [null] throws a TypeError. *)
Definition setResolution (args : Scratch.QualityArgs) (this : Instance) : Completion unit :=
  let quality := Scratch.QUALITY args in
  let this := set_targetResolution this quality in
  let this := set_resolution this (resolutions_or_1080p quality) in
  match glCanvas this with
  | None => Throw JS.TypeError this
  | Some _ =>
      let this := canvas_set_size this (res_width (resolution this))
                                       (res_height (resolution this)) in
      match gl this with
      | None => Throw JS.TypeError this
      | Some gl0 =>
          let gl1 := WebGL.viewport gl0 0 0 (JS.ToInt (res_width (resolution this)))
                                            (JS.ToInt (res_height (resolution this))) in
          let gl2 := WebGL.clearColor gl1 0 0 0 0 in
          Normal tt (set_gl this (Some (WebGL.clear gl2)))
      end
  end.

Definition setPenColor (args : Scratch.ColorArgs Value) (this : Instance) : Completion unit :=
  let r := (JS.Math_max 0 (JS.Math_min 255 (toNumber (Scratch.R args))) / 255)%Q in
  let g := (JS.Math_max 0 (JS.Math_min 255 (toNumber (Scratch.G args))) / 255)%Q in
  let b := (JS.Math_max 0 (JS.Math_min 255 (toNumber (Scratch.B args))) / 255)%Q in
  Normal tt (set_penColor this {| r := r; g := g; b := b; a := 1 |}).

Definition setPenWidth (args : Scratch.WidthArgs Value) (this : Instance) : Completion unit :=
  Normal tt (set_penWidth this (JS.Math_max 1 (toNumber (Scratch.WIDTH args)))).

Definition identity3 : list number :=
  [ Num 1; Num 0; Num 0;
    Num 0; Num 1; Num 0;
    Num 0; Num 0; Num 1 ].

Definition drawGPULine (args : Scratch.LineArgs Value) (this : Instance) : Completion unit :=
  match gl this, shaderProgram this with
  | Some gl0, Some program =>
      let x1 := Num (toNumber (Scratch.X1 args)) in
      let y1 := Num (toNumber (Scratch.Y1 args)) in
      let x2 := Num (toNumber (Scratch.X2 args)) in
      let y2 := Num (toNumber (Scratch.Y2 args)) in
      let gl1 := WebGL.useProgram gl0 program in
      match programInfo this with
      | None => Throw JS.TypeError (set_gl this (Some gl1))
      | Some info =>
          let gl2 := WebGL.uniform2f gl1 (resolution_loc info)
                       (JS.ToNumber (res_width (resolution this)))
                       (JS.ToNumber (res_height (resolution this))) in
          let gl2' := match transform_loc info with
                      | Some loc => WebGL.uniformMatrix3fv gl2 loc identity3
                      | None => gl2    (* a missing location is ignored *)
                      end in
          let centerX := JS.div (JS.ToNumber (res_width (resolution this))) (Num 2) in
          let centerY := JS.div (JS.ToNumber (res_height (resolution this))) (Num 2) in
          let vertices :=
            JS.Float32Array
              [ JS.add centerX x1; JS.sub centerY y1;
                JS.add centerX x2; JS.sub centerY y2 ] in
          let colors :=
            JS.Float32Array
              [ Num (r (penColor this)); Num (g (penColor this));
                Num (b (penColor this)); Num (a (penColor this));
                Num (r (penColor this)); Num (g (penColor this));
                Num (b (penColor this)); Num (a (penColor this)) ] in
          let (gl3, positionBuffer) := WebGL.createBuffer gl2' in
          let gl4 := WebGL.bindBuffer gl3 positionBuffer in
          let gl5 := WebGL.bufferData gl4 vertices in
          let gl6 := WebGL.enableVertexAttribArray gl5 (position_loc info) in
          let gl7 := WebGL.vertexAttribPointer gl6 (position_loc info) 2 in
          let (gl8, colorBuffer) := WebGL.createBuffer gl7 in
          let gl9 := WebGL.bindBuffer gl8 colorBuffer in
          let gl10 := WebGL.bufferData gl9 colors in
          let gl11 := WebGL.enableVertexAttribArray gl10 (color_loc info) in
          let gl12 := WebGL.vertexAttribPointer gl11 (color_loc info) 4 in
          let gl13 := WebGL.lineWidth gl12 (Num (penWidth this)) in
          let gl14 := WebGL.drawArrays_LINES_0_2 gl13 in
          let gl15 := WebGL.deleteBuffer gl14 positionBuffer in
          let gl16 := WebGL.deleteBuffer gl15 colorBuffer in
          Normal tt (set_gl this (Some gl16))
      end
  | _, _ => Normal tt this
  end.

Definition clearGPUCanvas (this : Instance) : Completion unit :=
  match gl this with
  | None => Normal tt this
  | Some gl0 =>
      let gl1 := WebGL.clearColor gl0 0 0 0 0 in
      Normal tt (set_gl this (Some (WebGL.clear gl1)))
  end.

Definition getResolutionWidth (this : Instance) : Completion (option Z) :=
  Normal (res_width (resolution this)) this.

Definition getResolutionHeight (this : Instance) : Completion (option Z) :=
  Normal (res_height (resolution this)) this.

Definition getGPUCanvas (this : Instance) : Completion (option Canvas) :=
  Normal (glCanvas this) this.

End Blocks.

Definition getInfo : Descriptor.Info :=
  {| Descriptor.id := "polyair";
     Descriptor.name := "Polyair";
     Descriptor.color1 := "#9966FF";
     Descriptor.color2 := "#774DCB";
     Descriptor.color3 := "#664DBF";
     Descriptor.blocks :=
       [ Descriptor.Block "enableGPURendering" Descriptor.COMMAND
           "enable GPU rendering for this sprite" [];
         Descriptor.Block "disableGPURendering" Descriptor.COMMAND
           "disable GPU rendering for this sprite" [];
         Descriptor.Block "setResolution" Descriptor.COMMAND
           "set render quality to [QUALITY]"
           [ ("QUALITY", {| Descriptor.type := Descriptor.STRING;
                            Descriptor.menu := Some "qualityMenu";
                            Descriptor.defaultValue := Descriptor.Text "1080p" |}) ];
         Descriptor.Block "isGPUEnabled" Descriptor.BOOLEAN
           "GPU rendering enabled?" [];
         Descriptor.Separator;
         Descriptor.Block "setPenColor" Descriptor.COMMAND
           "set GPU pen color to r:[R] g:[G] b:[B]"
           [ ("R", Descriptor.number 255); ("G", Descriptor.number 255);
             ("B", Descriptor.number 255) ];
         Descriptor.Block "setPenWidth" Descriptor.COMMAND
           "set GPU pen width to [WIDTH]"
           [ ("WIDTH", Descriptor.number 1) ];
         Descriptor.Block "drawGPULine" Descriptor.COMMAND
           "GPU draw line from x:[X1] y:[Y1] to x:[X2] y:[Y2]"
           [ ("X1", Descriptor.number 0); ("Y1", Descriptor.number 0);
             ("X2", Descriptor.number 100); ("Y2", Descriptor.number 100) ];
         Descriptor.Block "clearGPUCanvas" Descriptor.COMMAND
           "clear GPU canvas" [];
         Descriptor.Separator;
         Descriptor.Block "getResolutionWidth" Descriptor.REPORTER
           "current resolution width" [];
         Descriptor.Block "getResolutionHeight" Descriptor.REPORTER
           "current resolution height" [] ];
     Descriptor.menus :=
       [ ("qualityMenu",
          {| Descriptor.acceptReporters := true;
             Descriptor.items := [ "480p"; "720p"; "1080p"; "2K"; "4K" ] |}) ]
  |}%string.

End Older.

(** ** Browsers and inputs of the scenarios *)

Module Scenario.
Import Polyair.

(** A browser in which initialisation succeeds. *)
Definition all_fine : Browser :=
  {| webgl2 := true; webgl := true;
     vertex_compiles := true; fragment_compiles := true; links := true |}.

(** A browser without WebGL. *)
Definition no_context : Browser :=
  {| webgl2 := false; webgl := false;
     vertex_compiles := true; fragment_compiles := true; links := true |}.

(** A browser in which the shaders compile and the program does not link. *)
Definition link_fails : Browser :=
  {| webgl2 := true; webgl := true;
     vertex_compiles := true; fragment_compiles := true; links := false |}.

(** A browser in which the fragment shader does not compile. *)
Definition compile_fails : Browser :=
  {| webgl2 := true; webgl := true;
     vertex_compiles := true; fragment_compiles := false; links := true |}.

Definition quality (name : string) : Scratch.QualityArgs :=
  {| Scratch.QUALITY := name |}.

Definition sprite (id : string) : Scratch.Util :=
  {| Scratch.target_id := id |}.

(** Arguments that are numbers already: the host's cast returns them. *)
Definition number_is_number (q : Q) : Q := q.

Definition line (x1 y1 x2 y2 : Q) : Scratch.LineArgs Q :=
  {| Scratch.X1 := x1; Scratch.Y1 := y1; Scratch.X2 := x2; Scratch.Y2 := y2 |}.

Definition rgb (r g b : Q) : Scratch.ColorArgs Q :=
  {| Scratch.R := r; Scratch.G := g; Scratch.B := b |}.

Definition pen_width (w : Q) : Scratch.WidthArgs Q :=
  {| Scratch.WIDTH := w |}.

(** Binary32 arithmetic as IEEE 754 has it: the operation on the numbers,
    then the rounding. *)
Definition ieee : WebGL.Arithmetic :=
  {| WebGL.plus := λ a b, JS.fround (JS.add a b);
     WebGL.minus := λ a b, JS.fround (JS.sub a b);
     WebGL.times := λ a b, JS.fround (JS.mul a b);
     WebGL.over := λ a b, JS.fround (JS.div a b) |}.

End Scenario.

(** ** The specification's vocabulary *)

Module Spec.

(** [clamp(x, lo, hi)], by cases. *)
Definition clamp (x lo hi : Q) : Q :=
  if Qlt_le_dec x lo then lo
  else if Qlt_le_dec hi x then hi
  else x.

(** The preset table, as the specification lists it. *)
Definition preset (name : string) : option (Z * Z) :=
  if String.eqb name "480p" then Some (854, 480)
  else if String.eqb name "720p" then Some (1280, 720)
  else if String.eqb name "1080p" then Some (1920, 1080)
  else if String.eqb name "2K" then Some (2560, 1440)
  else if String.eqb name "4K" then Some (3840, 2160)
  else None.

End Spec.

Import Polyair.

(** * Sequences of block calls

    The host runs one block at a time on the one instance it registered; an
    exception ends the block, not the instance. *)

Module Host.

Inductive Block (Value : Type) :=
| EnableGPURendering (util : Scratch.Util)
| DisableGPURendering (util : Scratch.Util)
| IsGPUEnabled (util : Scratch.Util)
| SetResolution (args : Scratch.QualityArgs)
| GetResolutionWidth
| GetResolutionHeight
| SetPenColor (args : Scratch.ColorArgs Value)
| SetPenWidth (args : Scratch.WidthArgs Value)
| DrawGPULine (args : Scratch.LineArgs Value)
| ClearGPUCanvas.

Arguments EnableGPURendering {Value}.
Arguments DisableGPURendering {Value}.
Arguments IsGPUEnabled {Value}.
Arguments SetResolution {Value}.
Arguments GetResolutionWidth {Value}.
Arguments GetResolutionHeight {Value}.
Arguments SetPenColor {Value}.
Arguments SetPenWidth {Value}.
Arguments DrawGPULine {Value}.
Arguments ClearGPUCanvas {Value}.

Section Dispatch.
Context {Value : Type} (toNumber : Value → Q).

(** The instance after one block of the current variant. *)
Definition call (this : Instance) (block : Block Value) : Instance :=
  match block with
  | EnableGPURendering util => final (Current.enableGPURendering util this)
  | DisableGPURendering util => final (Current.disableGPURendering util this)
  | IsGPUEnabled util => final (Current.isGPUEnabled util this)
  | SetResolution args => final (Current.setResolution args this)
  | GetResolutionWidth => final (Current.getResolutionWidth this)
  | GetResolutionHeight => final (Current.getResolutionHeight this)
  | SetPenColor args => final (Current.setPenColor toNumber args this)
  | SetPenWidth args => final (Current.setPenWidth toNumber args this)
  | DrawGPULine args => final (Current.drawGPULine toNumber args this)
  | ClearGPUCanvas => final (Current.clearGPUCanvas this)
  end.

Definition run (blocks : list (Block Value)) (this : Instance) : Instance :=
  foldl call this blocks.

End Dispatch.
End Host.

(** ** The vocabulary of the properties *)

(** What the specification asks of [setResolution] on an instance without a
    context, at one name: the call returns normally, the stored resolution is
    the preset's, and the context-dependent steps are skipped, which leaves
    the canvas and the context as they were. *)
Definition skips_context_steps
    (setResolution : Scratch.QualityArgs → Instance → Completion unit)
    (name : string) (this : Instance) : Prop :=
  gl this = None →
  ∃ this',
    setResolution (Scenario.quality name) this = Normal tt this' ∧
    (∀ w h, Spec.preset name = Some (w, h) →
            resolution this' = Preset {| width := w; height := h |}) ∧
    glCanvas this' = glCanvas this ∧
    gl this' = gl this.

(** Buffer names are handed out in increasing order: a live buffer has a
    name below the next one. *)
Definition buffers_below_next (g : WebGL.Context) : Prop :=
  ∀ i, is_Some (WebGL.buffers g !! i) → (i < WebGL.next_buffer g)%nat.

(** An instance that can draw: it has a context, a linked program with its
    locations, and a resolution taken from the preset table. *)
Record Ready (this : Instance) (gl0 : WebGL.Context) (d : Dim) : Prop := {
  ready_gl : gl this = Some gl0;
  ready_program :
    ∃ s, shaderProgram this = Some {| WebGL.stage := s; WebGL.linked := true |};
  ready_info :
    ∃ t, programInfo this =
           Some {| position_loc := WebGL.a_position;
                   color_loc := WebGL.a_color;
                   resolution_loc := WebGL.u_resolution;
                   transform_loc := t |};
  ready_resolution : resolution this = Preset d;
  ready_buffers : buffers_below_next gl0
}.

(** The calls of [drawGPULine] from the first [createBuffer] on, the same in
    both variants. *)
Definition line_calls (gl2 : WebGL.Context) (vertices colors : list number)
    (w : number) : WebGL.Context :=
  let (gl3, positionBuffer) := WebGL.createBuffer gl2 in
  let gl4 := WebGL.bindBuffer gl3 positionBuffer in
  let gl5 := WebGL.bufferData gl4 vertices in
  let gl6 := WebGL.enableVertexAttribArray gl5 WebGL.a_position in
  let gl7 := WebGL.vertexAttribPointer gl6 WebGL.a_position 2 in
  let (gl8, colorBuffer) := WebGL.createBuffer gl7 in
  let gl9 := WebGL.bindBuffer gl8 colorBuffer in
  let gl10 := WebGL.bufferData gl9 colors in
  let gl11 := WebGL.enableVertexAttribArray gl10 WebGL.a_color in
  let gl12 := WebGL.vertexAttribPointer gl11 WebGL.a_color 4 in
  let gl13 := WebGL.lineWidth gl12 w in
  let gl14 := WebGL.drawArrays_LINES_0_2 gl13 in
  let gl15 := WebGL.deleteBuffer gl14 positionBuffer in
  WebGL.deleteBuffer gl15 colorBuffer.

(** The pen colour as the four floats of a vertex. *)
Definition pen (c : Color) : list number :=
  [ Num (r c); Num (g c); Num (b c); Num (a c) ].

(** The same pair of numbers. *)
Definition same2 (p q : number * number) : Prop :=
  JS.same (fst p) (fst q) ∧ JS.same (snd p) (snd q).

(** The program and the locations each variant has after a successful
    initialisation. *)
Definition linked_as (older : bool) (this : Instance) : Instance :=
  set_programInfo
    (set_shaderProgram this
       (Some {| WebGL.stage := if older then WebGL.TransformThenPixelToClip
                               else WebGL.PixelToClip;
                WebGL.linked := true |}))
    (Some {| position_loc := WebGL.a_position;
             color_loc := WebGL.a_color;
             resolution_loc := WebGL.u_resolution;
             transform_loc := if older then Some WebGL.u_transform else None |}).

(** [this] with the canvas, the context, the program and its locations of
    [that]. *)
Definition with_graphics (that this : Instance) : Instance :=
  {| glCanvas := glCanvas that; gl := gl that;
     resolution := resolution this;
     targetResolution := targetResolution this;
     gpuSprites := gpuSprites this;
     shaderProgram := shaderProgram that; programInfo := programInfo that;
     penColor := penColor this; penWidth := penWidth this |}.

(** A method is indifferent to the graphics side when, on two instances
    that differ in nothing else, it returns normally the same value and makes
    the same change, leaving each graphics side as it was. *)
Definition indifferent {A : Type} (method : Instance → Completion A) : Prop :=
  ∀ this that,
    ∃ v this',
      method this = Normal v this' ∧
      method (with_graphics that this) = Normal v (with_graphics that this').

(** ** The vocabulary of the further properties *)

Definition present {A : Type} (o : option A) : bool :=
  match o with
  | Some _ => true
  | None => false
  end.

(** The browser gives a context by one of the two kinds. *)
Definition gives_context (browser : Browser) : bool :=
  webgl2 browser || webgl browser.

(** Both shaders compile. *)
Definition compiles (browser : Browser) : bool :=
  vertex_compiles browser && fragment_compiles browser.

(** A block of the current variant throws. *)
Definition block_throws {Value : Type} (toNumber : Value → Q)
    (this : Instance) (block : Host.Block Value) : bool :=
  match block with
  | Host.EnableGPURendering util => throws (Current.enableGPURendering util this)
  | Host.DisableGPURendering util => throws (Current.disableGPURendering util this)
  | Host.IsGPUEnabled util => throws (Current.isGPUEnabled util this)
  | Host.SetResolution args => throws (Current.setResolution args this)
  | Host.GetResolutionWidth => throws (Current.getResolutionWidth this)
  | Host.GetResolutionHeight => throws (Current.getResolutionHeight this)
  | Host.SetPenColor args => throws (Current.setPenColor toNumber args this)
  | Host.SetPenWidth args => throws (Current.setPenWidth toNumber args this)
  | Host.DrawGPULine args => throws (Current.drawGPULine toNumber args this)
  | Host.ClearGPUCanvas => throws (Current.clearGPUCanvas this)
  end.

Definition is_drawGPULine {Value : Type} (block : Host.Block Value) : bool :=
  match block with
  | Host.DrawGPULine _ => true
  | _ => false
  end.

(** The pen is within its ranges. *)
Definition pen_in_range (this : Instance) : Prop :=
  (1 <= penWidth this)%Q ∧
  (0 <= r (penColor this) <= 1)%Q ∧
  (0 <= g (penColor this) <= 1)%Q ∧
  (0 <= b (penColor this) <= 1)%Q ∧
  a (penColor this) = 1%Q.

(** The canvas and the viewport have the size of the stored resolution, as
    the integer attributes read it. *)
Definition follows_resolution (this : Instance) : Prop :=
  (∀ c, glCanvas this = Some c →
        c = {| canvas_width := JS.ToInt (res_width (resolution this));
               canvas_height := JS.ToInt (res_height (resolution this)) |}) ∧
  (∀ gl0, gl this = Some gl0 →
          WebGL.viewport_box gl0
            = (0, 0, JS.ToInt (res_width (resolution this)),
                     JS.ToInt (res_height (resolution this)))).

(** What no call of [drawGPULine] sets. *)
Definition fixed_state (gl0 : WebGL.Context)
  : bool * (WebGL.BlendFactor * WebGL.BlendFactor) * WebGL.RGBA * (Z * Z * Z * Z) :=
  (WebGL.blend gl0, WebGL.blend_func gl0, WebGL.clear_value gl0,
   WebGL.viewport_box gl0).

(** The pixel of the sprite-centred point (x, y) at the resolution [d]. *)
Definition centred (d : Dim) (x y : Q) : number * number :=
  (Num (inject_Z (width d) / 2 + x), Num (inject_Z (height d) / 2 - y)).

(** The point as a [Float32Array] holds it. *)
Definition stored (p : number * number) : number * number :=
  (JS.fround (fst p), JS.fround (snd p)).

(** The values of a binary format with [prec] significant bits and
    exponents from [1 - emax] to [emax]: an integer below 2^prec in
    magnitude, times a power of two between the least unit and the greatest. *)
Definition value_of (prec emax : Z) (q : Q) : Prop :=
  ∃ m z : Z,
    (q == inject_Z m * 2 ^ z)%Q ∧ Z.abs m < 2 ^ prec ∧
    (1 - emax) - (prec - 1) <= z <= emax - (prec - 1).

(** A binary32 value: an integer below 2^24 in magnitude times a power of
    two from 2^-149 to 2^104. *)
Definition binary32_value : Q → Prop := value_of 24 127.

(** A point with binary32 coordinates. *)
Definition binary32_point (p : number * number) : Prop :=
  ∃ x y, p = (Num x, Num y) ∧ binary32_value x ∧ binary32_value y.

(** [b] is what binary32 has for the number [a].  For a rational: a binary32
    value such that no binary32 value is nearer to the rational, or, when
    the rational is 2^127 or more in magnitude, possibly the infinity of its
    sign.  An infinity and NaN are themselves. *)
Definition nearest_binary32 (a b : number) : Prop :=
  match a, b with
  | Num q, Num x =>
      binary32_value x ∧
      ∀ f, binary32_value f → (Qabs (x - q) <= Qabs (f - q))%Q
  | Num q, Infinity s => if s then (q <= - 2 ^ 127)%Q else (2 ^ 127 <= q)%Q
  | NaN, NaN => True
  | Infinity s, Infinity t => s = t
  | _, _ => False
  end.

Definition nearest_binary32_point (p s : number * number) : Prop :=
  nearest_binary32 (fst p) (fst s) ∧ nearest_binary32 (snd p) (snd s).

(** What the specification asks of [drawGPULine] at one input: the call
    returns normally, and the endpoints of the line it drew last are the
    centred points themselves. *)
Definition draws_centred {Value : Type} (toNumber : Value → Q) (d : Dim)
    (args : Scratch.LineArgs Value) (this : Instance) : Prop :=
  ∃ gl1 ln,
    Current.drawGPULine toNumber args this = Normal tt (set_gl this (Some gl1)) ∧
    last (WebGL.drawn gl1) = Some ln ∧
    same2 (WebGL.position (WebGL.v0 ln))
      (centred d (toNumber (Scratch.X1 args)) (toNumber (Scratch.Y1 args))) ∧
    same2 (WebGL.position (WebGL.v1 ln))
      (centred d (toNumber (Scratch.X2 args)) (toNumber (Scratch.Y2 args))).

(** The line [ln] is what [drawGPULine] with [args] draws with the pen of
    [this] at the resolution [d]: the centred endpoints, the pen colour and
    the pen width, each as binary32. *)
Definition drawn_as {Value : Type} (toNumber : Value → Q) (this : Instance)
    (d : Dim) (args : Scratch.LineArgs Value) (ln : WebGL.Line) : Prop :=
  WebGL.position (WebGL.v0 ln)
    = stored (centred d (toNumber (Scratch.X1 args)) (toNumber (Scratch.Y1 args))) ∧
  WebGL.position (WebGL.v1 ln)
    = stored (centred d (toNumber (Scratch.X2 args)) (toNumber (Scratch.Y2 args))) ∧
  WebGL.color (WebGL.v0 ln) = JS.Float32Array (pen (penColor this)) ∧
  WebGL.color (WebGL.v1 ln) = JS.Float32Array (pen (penColor this)) ∧
  WebGL.thickness ln = JS.fround (Num (penWidth this)).

(** What the comparison of the two vertex stages asks of the GPU: its
    operations do not depend on how a number is written as a fraction, and on
    the binary32 values 1 * x and x + 0 are x and 0 * x is 0. *)
Record Sound (gpu : WebGL.Arithmetic) : Prop := {
  plus_same : ∀ a a' b b', JS.same a a' → JS.same b b' →
    JS.same (WebGL.plus gpu a b) (WebGL.plus gpu a' b');
  minus_same : ∀ a a' b b', JS.same a a' → JS.same b b' →
    JS.same (WebGL.minus gpu a b) (WebGL.minus gpu a' b');
  times_same : ∀ a a' b b', JS.same a a' → JS.same b b' →
    JS.same (WebGL.times gpu a b) (WebGL.times gpu a' b');
  over_same : ∀ a a' b b', JS.same a a' → JS.same b b' →
    JS.same (WebGL.over gpu a b) (WebGL.over gpu a' b');
  times_one : ∀ x, binary32_value x →
    JS.same (WebGL.times gpu (Num 1) (Num x)) (Num x);
  times_zero : ∀ x, binary32_value x →
    JS.same (WebGL.times gpu (Num 0) (Num x)) (Num 0);
  plus_zero_r : ∀ x, binary32_value x →
    JS.same (WebGL.plus gpu (Num x) (Num 0)) (Num x);
  plus_zero_l : ∀ x, binary32_value x →
    JS.same (WebGL.plus gpu (Num 0) (Num x)) (Num x)
}.

(** The opcodes a descriptor declares, in order. *)
Definition opcodes (info : Descriptor.Info) : list string :=
  omap (λ entry, match entry with
                 | Descriptor.Block opcode _ _ _ => Some opcode
                 | Descriptor.Separator => None
                 end) (Descriptor.blocks info).

(** What the host needs to call a block: its opcode, its type and its
    arguments (not its label). *)
Definition signatures (info : Descriptor.Info)
  : list (string * Descriptor.BlockType * list (string * Descriptor.Argument)) :=
  omap (λ entry, match entry with
                 | Descriptor.Block opcode blockType _ arguments =>
                     Some (opcode, blockType, arguments)
                 | Descriptor.Separator => None
                 end) (Descriptor.blocks info).

(** The items of the menu [name]. *)
Definition menu_items (info : Descriptor.Info) (name : string) : list string :=
  match list_find (λ entry, fst entry = name) (Descriptor.menus info) with
  | Some (_, (_, menu)) => Descriptor.items menu
  | None => []
  end.

(** * Theorems *)


(** * Pen state *)

Section Pen.
Context {Value : Type} (toNumber : Value → Q).

Lemma max_min_is_clamp (x : Q) :
  (JS.Math_max 0 (JS.Math_min 255 x) == Spec.clamp x 0 255)%Q.
Proof.
  unfold JS.Math_max, JS.Math_min, Spec.clamp.
  destruct (Qlt_le_dec x 0) as [Hneg | Hpos].
  - apply Q.max_l. apply Q.min_le_iff. right. now apply Qlt_le_weak.
  - destruct (Qlt_le_dec 255 x) as [Hbig | Hsmall].
    + rewrite (Q.min_l 255 x) by now apply Qlt_le_weak.
      now apply Q.max_r.
    + rewrite (Q.min_r 255 x) by assumption.
      now apply Q.max_r.
Qed.

Lemma clamp_bounds (x : Q) :
  (0 <= Spec.clamp x 0 255 <= 255)%Q.
Proof.
  unfold Spec.clamp.
  destruct (Qlt_le_dec x 0); [ split; [apply Qle_refl | discriminate] |].
  destruct (Qlt_le_dec 255 x); [ split; [discriminate | apply Qle_refl] |].
  now split.
Qed.

Lemma unit_interval (x : Q) :
  (0 <= x <= 255)%Q → (0 <= x / 255 <= 1)%Q.
Proof.
  intros [Hlo Hhi]. split.
  - apply Qle_shift_div_l; [reflexivity |]. now rewrite Qmult_0_l.
  - apply Qle_shift_div_r; [reflexivity |]. now rewrite Qmult_1_l.
Qed.

Lemma channel_normalised (x : Q) :
  let c := (JS.Math_max 0 (JS.Math_min 255 x) / 255)%Q in
  (c == Spec.clamp x 0 255 / 255)%Q ∧ (0 <= c <= 1)%Q.
Proof.
  cbv zeta. split.
  - now rewrite max_min_is_clamp.
  - apply unit_interval. rewrite max_min_is_clamp. apply clamp_bounds.
Qed.

(** C6. Whatever the three inputs are (negative and above 255 included),
    [setPenColor] returns normally and stores, for each channel, the input
    clamped to [0, 255] and divided by 255, a number of [0, 1]; the stored
    alpha is 1. *)
Theorem setPenColor_clamps_and_normalises
    (args : Scratch.ColorArgs Value) (this : Instance) :
  ∃ this',
    Current.setPenColor toNumber args this = Normal tt this' ∧
    (r (penColor this') == Spec.clamp (toNumber (Scratch.R args)) 0 255 / 255)%Q ∧
    (g (penColor this') == Spec.clamp (toNumber (Scratch.G args)) 0 255 / 255)%Q ∧
    (b (penColor this') == Spec.clamp (toNumber (Scratch.B args)) 0 255 / 255)%Q ∧
    (0 <= r (penColor this') <= 1)%Q ∧
    (0 <= g (penColor this') <= 1)%Q ∧
    (0 <= b (penColor this') <= 1)%Q ∧
    a (penColor this') = 1%Q.
Proof.
  eexists. split; [reflexivity |]. cbn [penColor set_penColor r g b a].
  destruct (channel_normalised (toNumber (Scratch.R args))) as [Er Br].
  destruct (channel_normalised (toNumber (Scratch.G args))) as [Eg Bg].
  destruct (channel_normalised (toNumber (Scratch.B args))) as [Eb Bb].
  repeat split; try assumption; try apply Br; try apply Bg; try apply Bb.
Qed.

(** C7. [setPenWidth] returns normally; the stored width is exactly 1 when
    the input is below 1 (negative inputs included) and is the input when the
    input is at least 1. *)
Theorem setPenWidth_at_least_one
    (args : Scratch.WidthArgs Value) (this : Instance) :
  ∃ this',
    Current.setPenWidth toNumber args this = Normal tt this' ∧
    ((toNumber (Scratch.WIDTH args) < 1)%Q → penWidth this' = 1%Q) ∧
    ((1 <= toNumber (Scratch.WIDTH args))%Q →
       (penWidth this' == toNumber (Scratch.WIDTH args))%Q).
Proof.
  eexists. split; [reflexivity |]. cbn [penWidth set_penWidth].
  unfold JS.Math_max, Qmax, GenericMinMax.gmax. split.
  - intros Hlt. destruct (1 ?= toNumber (Scratch.WIDTH args))%Q eqn:E;
      try reflexivity.
    apply Qlt_alt in E. exfalso. apply (Qlt_irrefl 1).
    now apply Qlt_trans with (toNumber (Scratch.WIDTH args)).
  - intros Hle. destruct (1 ?= toNumber (Scratch.WIDTH args))%Q eqn:E.
    + now apply Qeq_alt in E.
    + reflexivity.
    + apply Qgt_alt in E. exfalso. now apply (Qlt_not_le _ _ E).
Qed.

End Pen.

(** The colour of the scenario: [setPenColor(300, -10, 128)] stores
    (1, 0, 128/255, 1). *)
Example setPenColor_scenario :
  let c := penColor (final (Current.setPenColor Scenario.number_is_number
                              (Scenario.rgb 300 (-10) 128) fields)) in
  (r c == 1)%Q ∧ (g c == 0)%Q ∧ (b c == 128 # 255)%Q ∧ a c = 1%Q.
Proof. repeat split. Qed.

(** The widths 0 and 5/2 of the scenario. *)
Lemma setPenWidth_at_least_one_witness :
  penWidth (final (Current.setPenWidth Scenario.number_is_number
                     (Scenario.pen_width 0) fields)) = 1%Q ∧
  (penWidth (final (Current.setPenWidth Scenario.number_is_number
                      (Scenario.pen_width (5 # 2)) fields)) == 5 # 2)%Q.
Proof.
  split.
  - destruct (setPenWidth_at_least_one Scenario.number_is_number
                (Scenario.pen_width 0) fields) as [this' [E [Hlow _]]].
    rewrite E. apply Hlow. reflexivity.
  - destruct (setPenWidth_at_least_one Scenario.number_is_number
                (Scenario.pen_width (5 # 2)) fields) as [this' [E [_ Hhigh]]].
    rewrite E. apply Hhigh. discriminate.
Defined.


(** * The GPU flag registry *)

Section Registry.
Context {Value : Type} (toNumber : Value → Q).

Lemma drawGPULine_keeps_registry (args : Scratch.LineArgs Value) (this : Instance) :
  gpuSprites (final (Current.drawGPULine toNumber args this)) = gpuSprites this.
Proof.
  unfold Current.drawGPULine.
  destruct (gl this), (shaderProgram this), (programInfo this); reflexivity.
Qed.

Lemma setResolution_keeps_registry (args : Scratch.QualityArgs) (this : Instance) :
  gpuSprites (final (Current.setResolution args this)) = gpuSprites this.
Proof.
  destruct this as [[canvas |] [gl0 |] ? ? ? ? ? ? ?]; reflexivity.
Qed.

(** Only an [enableGPURendering] for the sprite itself can put it in the set. *)
Lemma call_keeps_absent (id : string) (block : Host.Block Value) (this : Instance) :
  id ∉ gpuSprites this →
  (∀ util, block = Host.EnableGPURendering util → Scratch.target_id util ≠ id) →
  id ∉ gpuSprites (Host.call toNumber this block).
Proof.
  intros Habsent Hblock.
  destruct block; cbn [Host.call];
    try (rewrite drawGPULine_keeps_registry; exact Habsent);
    try (rewrite setResolution_keeps_registry; exact Habsent);
    try exact Habsent.
  - cbn. specialize (Hblock util eq_refl).
    rewrite elem_of_union, elem_of_singleton. intros [E | Hin]; [| exact (Habsent Hin)].
    now apply Hblock.
  - cbn. rewrite elem_of_difference. intros [Hin _]. exact (Habsent Hin).
  - unfold Current.clearGPUCanvas. destruct (gl this); exact Habsent.
Qed.

Lemma run_keeps_absent (id : string) (blocks : list (Host.Block Value)) :
  ∀ this,
    id ∉ gpuSprites this →
    (∀ util, Host.EnableGPURendering util ∈ blocks → Scratch.target_id util ≠ id) →
    id ∉ gpuSprites (Host.run toNumber blocks this).
Proof.
  induction blocks as [| block blocks IH]; intros this Habsent Hblocks.
  - exact Habsent.
  - cbn [Host.run foldl]. apply IH.
    + apply call_keeps_absent; [exact Habsent |].
      intros util ->. apply Hblocks. left.
    + intros util Hin. apply Hblocks. now right.
Qed.

Lemma constructor_registry_empty (browser : Browser) :
  gpuSprites (Current.constructor browser) = ∅.
Proof.
  unfold Current.constructor, Current.initWebGL, Current.initShaders, getContext.
  cbn. destruct (webgl2 browser), (webgl browser); cbn; try reflexivity;
    destruct (compileShader browser VERTEX_SHADER),
             (compileShader browser FRAGMENT_SHADER); cbn; try reflexivity;
    destruct (links browser); reflexivity.
Qed.

(** C8. The flag registry is a set of sprite identifiers: for every [id],
    (1) after [enableGPURendering] for [id], [isGPUEnabled] for [id] is true;
    (2) after a following [disableGPURendering] for [id], it is false;
    (3) on an instance on which [enableGPURendering] was never called for
        [id], whatever else was called, it is false;
    (4) a second [enableGPURendering] for [id] changes nothing. *)
Theorem gpu_flag_registry_is_a_set (id : string) :
  (∀ this, ∃ s1,
     Current.enableGPURendering (Scenario.sprite id) this = Normal tt s1 ∧
     Current.isGPUEnabled (Scenario.sprite id) s1 = Normal true s1) ∧
  (∀ this, ∃ s1 s2,
     Current.enableGPURendering (Scenario.sprite id) this = Normal tt s1 ∧
     Current.disableGPURendering (Scenario.sprite id) s1 = Normal tt s2 ∧
     Current.isGPUEnabled (Scenario.sprite id) s2 = Normal false s2) ∧
  (∀ browser (blocks : list (Host.Block Value)),
     (∀ util, Host.EnableGPURendering util ∈ blocks → Scratch.target_id util ≠ id) →
     let this := Host.run toNumber blocks (Current.constructor browser) in
     Current.isGPUEnabled (Scenario.sprite id) this = Normal false this) ∧
  (∀ this, ∃ s1,
     Current.enableGPURendering (Scenario.sprite id) this = Normal tt s1 ∧
     Current.enableGPURendering (Scenario.sprite id) s1 = Normal tt s1).
Proof.
  repeat split.
  - intros this. eexists. split; [reflexivity |].
    unfold Current.isGPUEnabled. f_equal. cbn.
    apply bool_decide_eq_true. apply elem_of_union_l. now apply elem_of_singleton.
  - intros this. do 2 eexists. split; [reflexivity |]. split; [reflexivity |].
    unfold Current.isGPUEnabled. f_equal. cbn.
    apply bool_decide_eq_false. rewrite elem_of_difference, elem_of_singleton.
    intros [_ Hne]. now apply Hne.
  - intros browser blocks Hnever this.
    unfold Current.isGPUEnabled. f_equal. cbn.
    apply bool_decide_eq_false. subst this.
    apply run_keeps_absent; [| exact Hnever].
    rewrite constructor_registry_empty. apply not_elem_of_empty.
  - intros this. eexists. split; [reflexivity |].
    unfold Current.enableGPURendering. f_equal.
    unfold set_gpuSprites. cbn. f_equal.
    now rewrite (assoc_L (∪)), (idemp_L (∪)).
Qed.

End Registry.

(** The scenario of the specification: enable for sprite A, disable for
    sprite B, which was never enabled; B's flag is off. *)
Lemma gpu_flag_registry_is_a_set_witness :
  let this :=
    Host.run Scenario.number_is_number
      [ Host.EnableGPURendering (Scenario.sprite "A");
        Host.DisableGPURendering (Scenario.sprite "B") ]
      (Current.constructor Scenario.all_fine) in
  Current.isGPUEnabled (Scenario.sprite "B") this = Normal false this.
Proof.
  apply (gpu_flag_registry_is_a_set Scenario.number_is_number "B").
  intros util Hin.
  apply list_elem_of_In in Hin. cbn in Hin.
  destruct Hin as [E | [E | []]]; [| discriminate E].
  injection E as <-. discriminate.
Defined.

(** * Resolution *)

Lemma constructor_resolution (browser : Browser) :
  resolution (Current.constructor browser) = Preset {| width := 854; height := 480 |} ∧
  Current.getResolutionWidth (Current.constructor browser)
    = Normal (Some 854) (Current.constructor browser) ∧
  Current.getResolutionHeight (Current.constructor browser)
    = Normal (Some 480) (Current.constructor browser).
Proof.
  assert (E : resolution (Current.constructor browser)
              = Preset {| width := 854; height := 480 |}).
  { destruct browser as [[] [] [] [] []]; reflexivity. }
  unfold Current.getResolutionWidth, Current.getResolutionHeight.
  rewrite E. repeat split.
Qed.

Lemma setResolution_stores (args : Scratch.QualityArgs) (this : Instance) :
  resolution (final (Current.setResolution args this))
    = resolutions_or_1080p (Scratch.QUALITY args).
Proof.
  destruct this as [[canvas |] [gl0 |] ? ? ? ? ? ? ?]; reflexivity.
Qed.

(** The table of the code is the table of the specification. *)
Lemma resolutions_is_preset (name : string) :
  resolutions !! name
    = (λ wh, {| width := fst wh; height := snd wh |}) <$> Spec.preset name.
Proof.
  unfold Spec.preset.
  repeat match goal with
         | |- context [String.eqb name ?k] =>
             destruct (String.eqb_spec name k) as [-> | ?]; [reflexivity |]
         end.
  unfold resolutions. apply not_elem_of_list_to_map_1. cbn.
  rewrite !elem_of_cons, elem_of_nil. tauto.
Qed.

(** The five preset names give exactly their table entry. *)
Lemma setResolution_preset (name : string) (w h : Z) (this : Instance) :
  Spec.preset name = Some (w, h) →
  resolution (final (Current.setResolution (Scenario.quality name) this))
    = Preset {| width := w; height := h |}.
Proof.
  intros E. rewrite setResolution_stores. cbn [Scenario.quality Scratch.QUALITY].
  unfold resolutions_or_1080p, resolutions_get.
  now rewrite resolutions_is_preset, E.
Qed.

(** A name that is neither a preset nor a member of [Object.prototype]
    gives the 1080p entry. *)
Lemma setResolution_unknown (name : string) (this : Instance) :
  Spec.preset name = None →
  name ∉ JS.Object_prototype →
  resolution (final (Current.setResolution (Scenario.quality name) this))
    = Preset {| width := 1920; height := 1080 |}.
Proof.
  intros E Hproto. rewrite setResolution_stores. cbn [Scenario.quality Scratch.QUALITY].
  unfold resolutions_or_1080p, resolutions_get.
  rewrite resolutions_is_preset, E. cbn.
  now rewrite bool_decide_eq_false_2.
Qed.

(** C5. The name "toString" is not in the preset table, and [setResolution]
    does not fall back to the 1080p entry for it: the lookup finds the member
    of [Object.prototype] that every object inherits, which is truthy, so the
    stored resolution is that member and both reporters return [undefined]
    instead of 1920 and 1080. *)
Theorem setResolution_inherited_name (this : Instance) :
  Spec.preset "toString" = None ∧
  ∃ this',
    Current.setResolution (Scenario.quality "toString") this = Normal tt this' ∧
    resolution this' = Inherited "toString" ∧
    resolution this' ≠ Preset {| width := 1920; height := 1080 |} ∧
    Current.getResolutionWidth this' = Normal None this' ∧
    Current.getResolutionHeight this' = Normal None this'.
Proof.
  split; [reflexivity |].
  exists (final (Current.setResolution (Scenario.quality "toString") this)).
  split; [reflexivity |].
  unfold Current.getResolutionWidth, Current.getResolutionHeight.
  rewrite setResolution_stores. repeat split. discriminate.
Qed.

(** C9. [setResolution] with the same name twice: the first call returns
    normally, the second call returns normally and leaves the instance as the
    first one left it, so the dimensions are the same after each; and on an
    instance that has a context the surface is cleared, fully transparent,
    after each. *)
Theorem setResolution_idempotent (args : Scratch.QualityArgs) (this : Instance) :
  ∃ s1,
    Current.setResolution args this = Normal tt s1 ∧
    Current.setResolution args s1 = Normal tt s1 ∧
    resolution s1 = resolutions_or_1080p (Scratch.QUALITY args) ∧
    (∀ gl0, gl this = Some gl0 →
       ∃ gl1, gl s1 = Some gl1 ∧
              WebGL.background gl1 = WebGL.transparent ∧
              WebGL.drawn gl1 = []).
Proof.
  eexists. split; [reflexivity |].
  destruct this as [[canvas |] [gl0 |] ? ? ? ? ? ? ?];
    (split; [reflexivity |]); (split; [reflexivity |]);
    intros gl' E; try discriminate E; eexists; repeat split.
Qed.

(** On the instance a working browser gives, with the 4K preset. *)
Lemma setResolution_idempotent_witness :
  ∃ s1 gl1,
    Current.setResolution (Scenario.quality "4K")
      (Current.constructor Scenario.all_fine) = Normal tt s1 ∧
    Current.setResolution (Scenario.quality "4K") s1 = Normal tt s1 ∧
    resolution s1 = Preset {| width := 3840; height := 2160 |} ∧
    gl s1 = Some gl1 ∧
    WebGL.background gl1 = WebGL.transparent ∧
    WebGL.drawn gl1 = [].
Proof.
  destruct (setResolution_idempotent (Scenario.quality "4K")
              (Current.constructor Scenario.all_fine))
    as [s1 [E1 [E2 [Eres Hsurface]]]].
  destruct (Hsurface _ eq_refl) as [gl1 [Egl [Hbg Hdrawn]]].
  exists s1, gl1. repeat split; assumption.
Defined.

(** * Without a graphics context *)


Lemma constructor_without_webgl :
  Current.constructor Scenario.no_context
    = set_glCanvas fields (Some {| canvas_width := 854; canvas_height := 480 |}).
Proof. reflexivity. Qed.

(** C2, as stated, fails on the instance a browser without WebGL gives: that
    instance has a canvas and no context, and [setResolution] with the 4K
    preset resizes the canvas from 854x480 to 3840x2160. *)
Lemma setResolution_resizes_canvas_without_context :
  ¬ skips_context_steps Current.setResolution "4K"
      (Current.constructor Scenario.no_context).
Proof.
  intros Hclaim. destruct (Hclaim eq_refl) as [this' [E [_ [Hcanvas _]]]].
  injection E as <-. discriminate Hcanvas.
Qed.

(** C2, amended. In the current variant, for every preset name,
    [setResolution] on an instance without a context returns normally, stores
    the preset's dimensions, leaves the instance without a context (the
    viewport and clear steps are skipped) and changes nothing else but the
    canvas: a canvas that exists is resized to the preset's dimensions, and
    only an instance without a canvas skips the resize. *)
Theorem setResolution_without_context
    (name : string) (w h : Z) (this : Instance) :
  Spec.preset name = Some (w, h) →
  gl this = None →
  ∃ this',
    Current.setResolution (Scenario.quality name) this = Normal tt this' ∧
    resolution this' = Preset {| width := w; height := h |} ∧
    targetResolution this' = name ∧
    gl this' = None ∧
    glCanvas this' =
      match glCanvas this with
      | Some _ => Some {| canvas_width := w; canvas_height := h |}
      | None => None
      end ∧
    gpuSprites this' = gpuSprites this ∧
    shaderProgram this' = shaderProgram this ∧
    programInfo this' = programInfo this ∧
    penColor this' = penColor this ∧
    penWidth this' = penWidth this.
Proof.
  intros Epreset Egl.
  exists (final (Current.setResolution (Scenario.quality name) this)).
  split; [reflexivity |].
  split; [now apply setResolution_preset |].
  assert (Eres : resolutions_or_1080p name = Preset {| width := w; height := h |}).
  { rewrite <- (setResolution_preset name w h this Epreset).
    now rewrite setResolution_stores. }
  destruct this as [[canvas |] gl0 ? ? ? ? ? ? ?]; cbn in Egl; subst gl0;
    cbn; rewrite ?Eres; repeat split.
Qed.

(** On the instance a browser without WebGL gives, with the 4K preset. *)
Lemma setResolution_without_context_witness :
  ∃ this',
    Current.setResolution (Scenario.quality "4K")
      (Current.constructor Scenario.no_context) = Normal tt this' ∧
    resolution this' = Preset {| width := 3840; height := 2160 |} ∧
    gl this' = None ∧
    glCanvas this' = Some {| canvas_width := 3840; canvas_height := 2160 |}.
Proof.
  destruct (setResolution_without_context "4K" 3840 2160
              (Current.constructor Scenario.no_context) eq_refl eq_refl)
    as [this' [E [Eres [_ [Egl [Ecanvas _]]]]]].
  exists this'. repeat split; assumption.
Defined.

(** In the older variant the same call throws: neither guard is there. *)
Lemma older_setResolution_without_context (name : string) (this : Instance) :
  gl this = None →
  throws (Older.setResolution (Scenario.quality name) this) = true ∧
  resolution (final (Older.setResolution (Scenario.quality name) this))
    = resolutions_or_1080p name.
Proof.
  intros Egl.
  destruct this as [[canvas |] gl0 ? ? ? ? ? ? ?]; cbn in Egl; subst gl0;
    split; reflexivity.
Qed.

(** C3. The variants diverge on the instance a browser without WebGL gives,
    which is the same instance in both: [setResolution] with the 4K preset
    returns normally in the current variant and throws a TypeError in the
    older one, at [this.gl.viewport], after it has stored the resolution and
    resized the canvas. *)
Theorem setResolution_variants_diverge :
  Older.constructor Scenario.no_context = Current.constructor Scenario.no_context ∧
  ∃ this',
    Current.setResolution (Scenario.quality "4K")
      (Current.constructor Scenario.no_context) = Normal tt this' ∧
    Older.setResolution (Scenario.quality "4K")
      (Older.constructor Scenario.no_context) = Throw JS.TypeError this'.
Proof.
  split; [reflexivity |]. eexists. split; reflexivity.
Qed.

(** * Shader failures *)

(** When a shader does not compile no program is created, and drawing
    returns at once. *)
Lemma drawGPULine_after_compile_failure
    {Value : Type} (toNumber : Value → Q)
    (browser : Browser) (args : Scratch.LineArgs Value) :
  vertex_compiles browser && fragment_compiles browser = false →
  shaderProgram (Current.constructor browser) = None ∧
  Current.drawGPULine toNumber args (Current.constructor browser)
    = Normal tt (Current.constructor browser).
Proof.
  intros Hfail.
  assert (E : shaderProgram (Current.constructor browser) = None).
  { destruct browser as [[] [] [] [] []]; try discriminate Hfail; reflexivity. }
  split; [exact E |].
  unfold Current.drawGPULine. rewrite E.
  now destruct (gl (Current.constructor browser)).
Qed.

(** Without a context, drawing returns at once. *)
Lemma drawGPULine_without_context
    {Value : Type} (toNumber : Value → Q)
    (args : Scratch.LineArgs Value) (this : Instance) :
  gl this = None →
  Current.drawGPULine toNumber args this = Normal tt this.
Proof. intros E. unfold Current.drawGPULine. now rewrite E. Qed.

(** C1. When the shaders compile and the program does not link,
    [initShaders] has stored the program before it tests LINK_STATUS and
    returns without [programInfo]: the program is not null, the guard of
    [drawGPULine] lets the call through, and the call throws a TypeError at
    [this.programInfo.uniformLocations].  Nothing was drawn: the instance is
    as it was. *)
Theorem drawGPULine_after_link_failure
    {Value : Type} (toNumber : Value → Q) (args : Scratch.LineArgs Value) :
  let this := Current.constructor Scenario.link_fails in
  shaderProgram this
    = Some {| WebGL.stage := WebGL.PixelToClip; WebGL.linked := false |} ∧
  programInfo this = None ∧
  Current.drawGPULine toNumber args this = Throw JS.TypeError this.
Proof. repeat split. Qed.

(** * Drawing a line *)


Section Steps.
Import WebGL.

Lemma bindBuffer_live (g : Context) (b : nat) (store : list number) :
  buffers g !! b = Some store →
  bindBuffer g b = with_array_buffer g (Some b).
Proof. intros E. unfold bindBuffer. now rewrite E. Qed.

Lemma fetch_enabled (g : Context) (a : Attrib) (i b k : nat) (store : list number) :
  pointer g a = {| enabled := true; source := Some b; components := k |} →
  buffers g !! b = Some store →
  length (take k (drop (i * k) store)) = k →
  fetch g a i = Some (take k (drop (i * k) store)).
Proof.
  intros Ep Eb El. unfold fetch. rewrite Ep. cbn. rewrite Eb. cbn.
  now rewrite El, Nat.eqb_refl.
Qed.

Lemma drawArrays_draws (g : Context) (p : Program) (a b : Vertex) :
  current_program g = Some p →
  shade g 0 = Some a →
  shade g 1 = Some b →
  drawArrays_LINES_0_2 g =
    with_drawn g
      (drawn g ++ [ {| v0 := a; v1 := b; thickness := line_width g;
                       vertex_stage := stage p;
                       resolution_seen := resolution_uniform g;
                       transform_seen := transform_uniform g |} ]).
Proof.
  intros Ep Ea Eb. unfold drawArrays_LINES_0_2. now rewrite Ep, Ea, Eb.
Qed.

(** Two buffers created and deleted leave the buffers that were live. *)
Lemma created_then_deleted (m : gmap nat (list number)) (n : nat)
    (v v' c c' : list number) :
  (∀ i, is_Some (m !! i) → (i < n)%nat) →
  delete (S n) (delete n (<[S n := c]> (<[S n := c']> (<[n := v]> (<[n := v']> m)))))
    = m.
Proof.
  intros Hbelow. apply map_eq. intros i.
  destruct (decide (i = S n)) as [-> | Hi].
  - rewrite lookup_delete_eq. symmetry. apply eq_None_not_Some.
    intros Hlive%Hbelow. lia.
  - rewrite lookup_delete_ne by congruence.
    destruct (decide (i = n)) as [-> | Hi'].
    + rewrite lookup_delete_eq. symmetry. apply eq_None_not_Some.
      intros Hlive%Hbelow. lia.
    + rewrite lookup_delete_ne by congruence.
      now rewrite !lookup_insert_ne by congruence.
Qed.


Ltac lookup_created :=
  cbn;
  first [ rewrite lookup_insert_eq; reflexivity
        | rewrite !lookup_insert_ne by lia; rewrite lookup_insert_eq; reflexivity
        | reflexivity ].

Ltac shade_vertex :=
  unfold shade;
  erewrite !fetch_enabled;
    [ reflexivity | reflexivity | | | reflexivity | | ];
    lookup_created.

Lemma line_calls_draw (g : Context) (p : Program)
    (x1 y1 x2 y2 c1 c2 c3 c4 w : number) :
  current_program g = Some p →
  buffers_below_next g →
  let g' := line_calls g [x1; y1; x2; y2] [c1; c2; c3; c4; c1; c2; c3; c4] w in
  drawn g' =
    drawn g ++
      [ {| v0 := {| position := (x1, y1); color := [c1; c2; c3; c4] |};
           v1 := {| position := (x2, y2); color := [c1; c2; c3; c4] |};
           thickness := accepted_width (line_width g) w;
           vertex_stage := stage p;
           resolution_seen := resolution_uniform g;
           transform_seen := transform_uniform g |} ] ∧
  buffers g' = buffers g ∧
  background g' = background g ∧
  resolution_uniform g' = resolution_uniform g ∧
  next_buffer g' = S (S (next_buffer g)).
Proof.
  intros Hprog Hbelow g'.
  destruct g as [? ? ? ? ? ? ? n m ? ? ? ? ? ?]. cbn in Hprog. subst.
  unfold buffers_below_next in Hbelow. cbn in Hbelow.
  eassert (E : g' = _).
  { subst g'. unfold line_calls. cbn.
    rewrite (bindBuffer_live _ _ []) by apply lookup_insert_eq. cbn.
    rewrite (bindBuffer_live _ _ []) by apply lookup_insert_eq. cbn.
    erewrite drawArrays_draws; [ | reflexivity | shade_vertex | shade_vertex ].
    cbn. reflexivity. }
  rewrite E. cbn.
  split; [reflexivity |].
  split; [apply created_then_deleted; exact Hbelow |].
  repeat split.
Qed.

End Steps.

(** * Binary32 values *)

(** Powers of two. *)

Lemma two_pos (z : Z) : (0 < 2 ^ z)%Q.
Proof. now apply Qpower_0_lt. Qed.

Lemma two_ne (z : Z) : ¬ (2 ^ z == 0)%Q.
Proof. intros E. pose proof (two_pos z) as H. rewrite E in H. discriminate H. Qed.

Lemma two_inject (z : Z) : 0 <= z → (inject_Z (2 ^ z) == 2 ^ z)%Q.
Proof. intros Hz. now rewrite Zpower_Qpower. Qed.

Lemma two_add (a b : Z) : (2 ^ (a + b) == 2 ^ a * 2 ^ b)%Q.
Proof. apply Qpower_plus. discriminate. Qed.

Lemma two_le (a b : Z) : a <= b → (2 ^ a <= 2 ^ b)%Q.
Proof. intros H. apply Qpower_le_compat_l; [exact H | discriminate]. Qed.

Lemma two_lt (a b : Z) : a < b → (2 ^ a < 2 ^ b)%Q.
Proof. intros H. apply Qpower_lt_compat_l; [exact H | reflexivity]. Qed.

(** Multiplying and dividing by a power of two, on integers. *)
Lemma times_two_nonneg (m z : Z) :
  0 <= z → (inject_Z (m * 2 ^ z) == inject_Z m * 2 ^ z)%Q.
Proof. intros Hz. now rewrite inject_Z_mult, two_inject. Qed.

Lemma times_two_neg (m z : Z) :
  z < 0 → (m # Z.to_pos (2 ^ (- z)) == inject_Z m * 2 ^ z)%Q.
Proof.
  intros Hz.
  assert (Hp : 0 < 2 ^ (- z)) by (apply Z.pow_pos_nonneg; lia).
  assert (E : (2 ^ z == / inject_Z (2 ^ (- z)))%Q).
  { rewrite two_inject by lia. rewrite <- Qpower_opp. now rewrite Z.opp_involutive. }
  rewrite E, Qmake_Qdiv. rewrite Z2Pos.id by exact Hp. reflexivity.
Qed.

(** The integer nearest to a fraction, against the fraction. *)

Lemma nearest_even_floor (n d : Z) : n / d <= JS.nearest_even n d.
Proof.
  unfold JS.nearest_even.
  destruct (2 * (n mod d) ?= d); [destruct (Z.even (n / d)) | |]; lia.
Qed.

Lemma nearest_even_ceiling (n d : Z) : JS.nearest_even n d <= n / d + 1.
Proof.
  unfold JS.nearest_even.
  destruct (2 * (n mod d) ?= d); [destruct (Z.even (n / d)) | |]; lia.
Qed.

Lemma inject_Z_nonzero (d : Z) : 0 < d → ¬ (inject_Z d == 0)%Q.
Proof.
  intros Hd E. unfold Qeq in E. cbn in E. lia.
Qed.

Lemma fraction_cancel (n d : Z) :
  0 < d → (inject_Z n / inject_Z d * inject_Z d == inject_Z n)%Q.
Proof. intros Hd. field. now apply inject_Z_nonzero. Qed.

Lemma fraction_le (lo n d : Z) :
  0 < d → (inject_Z lo <= inject_Z n / inject_Z d)%Q → lo * d <= n.
Proof.
  intros Hd H. rewrite Zle_Qle, inject_Z_mult.
  apply (Qmult_le_r _ _ (inject_Z d)) in H; [| now rewrite <- (Zlt_Qlt 0)].
  now rewrite fraction_cancel in H.
Qed.

Lemma fraction_lt (hi n d : Z) :
  0 < d → (inject_Z n / inject_Z d < inject_Z hi)%Q → n < hi * d.
Proof.
  intros Hd H. rewrite Zlt_Qlt, inject_Z_mult.
  apply (Qmult_lt_r _ _ (inject_Z d)) in H; [| now rewrite <- (Zlt_Qlt 0)].
  now rewrite fraction_cancel in H.
Qed.

Lemma nearest_even_lower (lo n d : Z) :
  0 < d → (inject_Z lo <= inject_Z n / inject_Z d)%Q → lo <= JS.nearest_even n d.
Proof.
  intros Hd H. apply fraction_le in H; [| exact Hd].
  pose proof (nearest_even_floor n d).
  assert (lo <= n / d) by (apply Z.div_le_lower_bound; lia).
  lia.
Qed.

Lemma nearest_even_upper (hi n d : Z) :
  0 < d → (inject_Z n / inject_Z d < inject_Z hi)%Q → JS.nearest_even n d <= hi.
Proof.
  intros Hd H. apply fraction_lt in H; [| exact Hd].
  pose proof (nearest_even_ceiling n d).
  assert (n / d < hi) by (apply Z.div_lt_upper_bound; lia).
  lia.
Qed.

Lemma nearest_even_integer (k n d : Z) :
  0 < d → (inject_Z n / inject_Z d == inject_Z k)%Q → JS.nearest_even n d = k.
Proof.
  intros Hd H.
  assert (E : n = k * d).
  { apply inject_Z_injective. rewrite inject_Z_mult, <- H.
    symmetry. now apply fraction_cancel. }
  subst n. unfold JS.nearest_even.
  rewrite Z.mod_mul, Z.div_mul by lia. cbn.
  destruct d; try lia. reflexivity.
Qed.

Lemma nearest_even_nearest (n d k : Z) :
  0 < d → Z.abs (JS.nearest_even n d * d - n) <= Z.abs (k * d - n).
Proof.
  intros Hd. unfold JS.nearest_even.
  pose proof (Z.div_mod n d ltac:(lia)) as Hn.
  pose proof (Z.mod_pos_bound n d Hd) as Hr.
  set (f := n / d) in *. set (r := n mod d) in *.
  assert (Hk : k <= f ∨ f + 1 <= k) by lia.
  assert (Hlow : k <= f → k * d <= f * d) by (intros; nia).
  assert (Hhigh : f + 1 <= k → (f + 1) * d <= k * d) by (intros; nia).
  destruct (Z.compare_spec (2 * r) d) as [E | E | E];
    [destruct (Z.even f) | |]; destruct Hk as [Hk | Hk];
    try specialize (Hlow Hk); try specialize (Hhigh Hk); lia.
Qed.

Lemma Qabs_inject_Z (z : Z) : (Qabs (inject_Z z) == inject_Z (Z.abs z))%Q.
Proof. reflexivity. Qed.

Lemma fraction_nearest (n d k : Z) :
  0 < d →
  (Qabs (inject_Z (JS.nearest_even n d) - inject_Z n / inject_Z d)
   <= Qabs (inject_Z k - inject_Z n / inject_Z d))%Q.
Proof.
  intros Hd.
  assert (Hne : ¬ (inject_Z d == 0)%Q) by now apply inject_Z_nonzero.
  assert (Hpos : (0 < / inject_Z d)%Q).
  { apply Qinv_lt_0_compat. now rewrite <- (Zlt_Qlt 0). }
  assert (E : ∀ j, (Qabs (inject_Z j - inject_Z n / inject_Z d)
                    == inject_Z (Z.abs (j * d - n)) * / inject_Z d)%Q).
  { intros j.
    assert (Ej : (inject_Z j - inject_Z n / inject_Z d
                  == inject_Z (j * d - n) * / inject_Z d)%Q).
    { unfold Z.sub. rewrite inject_Z_plus, inject_Z_mult, inject_Z_opp.
      field. exact Hne. }
    rewrite Ej, Qabs_Qmult, Qabs_inject_Z.
    now rewrite (Qabs_pos (/ inject_Z d)) by now apply Qlt_le_weak. }
  rewrite !E. apply Qmult_le_compat_r; [| now apply Qlt_le_weak].
  rewrite <- Zle_Qle. now apply nearest_even_nearest.
Qed.

(** Powers of two against a fraction. *)

Lemma pow_le_fraction (z : Z) (n d : positive) :
  (2 ^ z <= Zpos n # d)%Q ↔
  if 0 <=? z then Zpos d * 2 ^ z <= Zpos n else Zpos d <= Zpos n * 2 ^ (- z).
Proof.
  destruct (Z.leb_spec 0 z) as [Hz | Hz].
  - rewrite <- two_inject by exact Hz. unfold Qle. cbn [Qnum Qden inject_Z]. lia.
  - assert (Hp : 0 < 2 ^ (- z)) by (apply Z.pow_pos_nonneg; lia).
    pose proof (times_two_neg 1 z Hz) as E. rewrite Qmult_1_l in E.
    rewrite <- E. unfold Qle. cbn [Qnum Qden]. rewrite Z2Pos.id by exact Hp. lia.
Qed.

Lemma fraction_lt_pow (z : Z) (n d : positive) :
  (Zpos n # d < 2 ^ z)%Q ↔
  if 0 <=? z then Zpos n < Zpos d * 2 ^ z else Zpos n * 2 ^ (- z) < Zpos d.
Proof.
  pose proof (pow_le_fraction z n d) as H.
  split.
  - intros Hlt. apply Qlt_not_le in Hlt.
    destruct (0 <=? z); apply Z.nle_gt; intros Hle; apply Hlt, H, Hle.
  - intros Hlt. apply Qnot_le_lt. intros Hle. apply H in Hle.
    destruct (0 <=? z); lia.
Qed.

Lemma ilog2_spec (n d : positive) :
  (2 ^ JS.ilog2 n d <= Zpos n # d)%Q ∧ (Zpos n # d < 2 ^ (JS.ilog2 n d + 1))%Q.
Proof.
  pose proof (Z.log2_spec (Zpos n) eq_refl) as [Hn1 Hn2].
  pose proof (Z.log2_spec (Zpos d) eq_refl) as [Hd1 Hd2].
  pose proof (Z.log2_nonneg (Zpos n)) as Hn0.
  pose proof (Z.log2_nonneg (Zpos d)) as Hd0.
  unfold JS.ilog2.
  set (ln := Z.log2 (Zpos n)) in *. set (ld := Z.log2 (Zpos d)) in *.
  set (l := ln - ld).
  assert (Hupper : (Zpos n # d < 2 ^ (l + 1))%Q).
  { apply fraction_lt_pow. destruct (Z.leb_spec 0 (l + 1)) as [Hz | Hz].
    - assert (E : 2 ^ Z.succ ln = 2 ^ ld * 2 ^ (l + 1)).
      { rewrite <- Z.pow_add_r by lia. f_equal. subst l. lia. }
      assert (0 < 2 ^ (l + 1)) by (apply Z.pow_pos_nonneg; lia).
      nia.
    - assert (E : 2 ^ Z.succ ln * 2 ^ (- (l + 1)) = 2 ^ ld).
      { rewrite <- Z.pow_add_r by lia. f_equal. subst l. lia. }
      assert (0 < 2 ^ (- (l + 1))) by (apply Z.pow_pos_nonneg; lia).
      nia. }
  assert (Hlower : (2 ^ (l - 1) <= Zpos n # d)%Q).
  { apply pow_le_fraction. destruct (Z.leb_spec 0 (l - 1)) as [Hz | Hz].
    - assert (E : 2 ^ ln = 2 ^ Z.succ ld * 2 ^ (l - 1)).
      { rewrite <- Z.pow_add_r by lia. f_equal. subst l. lia. }
      assert (0 < 2 ^ (l - 1)) by (apply Z.pow_pos_nonneg; lia).
      nia.
    - assert (E : 2 ^ ln * 2 ^ (- (l - 1)) = 2 ^ Z.succ ld).
      { rewrite <- Z.pow_add_r by lia. f_equal. subst l. lia. }
      assert (0 < 2 ^ (- (l - 1))) by (apply Z.pow_pos_nonneg; lia).
      nia. }
  pose proof (pow_le_fraction l n d) as Htest.
  pose proof (fraction_lt_pow l n d) as Htest'.
  destruct (0 <=? l).
  - destruct (Z.leb_spec (Zpos d * 2 ^ l) (Zpos n)) as [Hle | Hgt].
    + split; [now apply Htest | exact Hupper].
    + split; [exact Hlower |].
      replace (l - 1 + 1) with l by lia. now apply Htest'.
  - destruct (Z.leb_spec (Zpos d) (Zpos n * 2 ^ (- l))) as [Hle | Hgt].
    + split; [now apply Htest | exact Hupper].
    + split; [exact Hlower |].
      replace (l - 1 + 1) with l by lia. now apply Htest'.
Qed.

Lemma ilog2_unique (j : Z) (n d : positive) :
  (2 ^ j <= Zpos n # d)%Q → (Zpos n # d < 2 ^ (j + 1))%Q → JS.ilog2 n d = j.
Proof.
  intros Hlo Hhi. destruct (ilog2_spec n d) as [Ilo Ihi].
  destruct (Z.lt_trichotomy (JS.ilog2 n d) j) as [Hlt | [Heq | Hgt]];
    [| exact Heq |]; exfalso.
  - pose proof (two_le (JS.ilog2 n d + 1) j ltac:(lia)) as Hp.
    apply (Qlt_irrefl (Zpos n # d)).
    eapply Qlt_le_trans; [exact Ihi |]. eapply Qle_trans; eassumption.
  - pose proof (two_le (j + 1) (JS.ilog2 n d) ltac:(lia)) as Hp.
    apply (Qlt_irrefl (Zpos n # d)).
    eapply Qlt_le_trans; [exact Hhi |]. eapply Qle_trans; eassumption.
Qed.

(** [round_pos], by what it computes: the integer nearest to the fraction
    divided by the unit 2^u, times the unit. *)
Lemma round_pos_spec (prec emax : Z) (n d : positive) :
  let u := Z.max (JS.ilog2 n d) (1 - emax) - (prec - 1) in
  ∃ m : Z,
    (∀ lo, (inject_Z lo <= (Zpos n # d) / 2 ^ u)%Q → lo <= m) ∧
    (∀ hi, ((Zpos n # d) / 2 ^ u < inject_Z hi)%Q → m <= hi) ∧
    (∀ k, ((Zpos n # d) / 2 ^ u == inject_Z k)%Q → m = k) ∧
    (∀ k, (Qabs (inject_Z m - (Zpos n # d) / 2 ^ u)
           <= Qabs (inject_Z k - (Zpos n # d) / 2 ^ u))%Q) ∧
    JS.round_pos prec emax n d =
      if Qle_bool (inject_Z (2 ^ (emax + 1))) (inject_Z m * 2 ^ u)
      then None else Some (Qred (inject_Z m * 2 ^ u)).
Proof.
  intros u. unfold JS.round_pos. fold u.
  destruct (Z.leb_spec 0 u) as [Hu | Hu].
  - set (D := Zpos d * 2 ^ u).
    assert (HD : 0 < D).
    { subst D. assert (0 < 2 ^ u) by (apply Z.pow_pos_nonneg; lia). lia. }
    assert (Et : ((Zpos n # d) / 2 ^ u == inject_Z (Zpos n) / inject_Z D)%Q).
    { subst D. rewrite Qmake_Qdiv, inject_Z_mult, two_inject by exact Hu.
      field. split; [apply two_ne | now apply inject_Z_nonzero]. }
    exists (JS.nearest_even (Zpos n) D).
    split; [intros lo H; rewrite Et in H; now apply nearest_even_lower |].
    split; [intros hi H; rewrite Et in H; now apply nearest_even_upper |].
    split; [intros k H; rewrite Et in H; now apply nearest_even_integer |].
    split; [intros k; rewrite Et; now apply fraction_nearest |].
    pose proof (times_two_nonneg (JS.nearest_even (Zpos n) D) u Hu) as E.
    rewrite (Qred_complete _ _ E). now rewrite E.
  - set (N := Zpos n * 2 ^ (- u)).
    assert (Et : ((Zpos n # d) / 2 ^ u == inject_Z N / inject_Z (Zpos d))%Q).
    { subst N. rewrite Qmake_Qdiv, times_two_nonneg by lia.
      rewrite Qpower_opp. field.
      split; [apply two_ne | now apply inject_Z_nonzero]. }
    exists (JS.nearest_even N (Zpos d)).
    split; [intros lo H; rewrite Et in H; now apply nearest_even_lower |].
    split; [intros hi H; rewrite Et in H; now apply nearest_even_upper |].
    split; [intros k H; rewrite Et in H; now apply nearest_even_integer |].
    split; [intros k; rewrite Et; now apply fraction_nearest |].
    pose proof (times_two_neg (JS.nearest_even N (Zpos d)) u Hu) as E.
    rewrite (Qred_complete _ _ E). now rewrite E.
Qed.

Lemma round_pos_reduced (prec emax : Z) (n d : positive) (v : Q) :
  JS.round_pos prec emax n d = Some v → Qred v = v ∧ 0 <= Qnum v.
Proof.
  intros H.
  destruct (round_pos_spec prec emax n d) as [m [Plo [_ [_ [_ E]]]]].
  rewrite E in H.
  match type of H with
  | (if ?c then _ else _) = _ => destruct c; [discriminate H |]
  end.
  injection H as <-. split.
  - apply Qred_complete, Qred_correct.
  - assert (Hm : 0 <= m).
    { apply Plo. apply Qle_shift_div_l; [apply two_pos |].
      rewrite Qmult_0_l. discriminate. }
    match goal with
    | |- 0 <= Qnum (Qred ?w) => assert (Hw : (0 <= w)%Q)
    end.
    { apply Qmult_le_0_compat; [| apply Qlt_le_weak, two_pos].
      unfold Qle. cbn [Qnum Qden inject_Z]. lia. }
    apply Qred_le in Hw. unfold Qle in Hw.
    change (Qnum (Qred 0)) with 0 in Hw. lia.
Qed.

Lemma not_overflow (prec emax m z : Z) :
  1 < prec → prec <= emax + 1 → 0 < m < 2 ^ prec → z <= emax - (prec - 1) →
  ∀ w, (w == inject_Z m * 2 ^ z)%Q →
  Qle_bool (inject_Z (2 ^ (emax + 1))) w = false.
Proof.
  intros Hprec Hmax Hm Hz w Ew.
  destruct (Qle_bool (inject_Z (2 ^ (emax + 1))) w) eqn:E; [| reflexivity].
  exfalso. apply Qle_bool_iff in E. rewrite Ew in E.
  assert (Hlt : (inject_Z m * 2 ^ z < 2 ^ prec * 2 ^ z)%Q).
  { apply Qmult_lt_compat_r; [apply two_pos |].
    rewrite <- (two_inject prec) by lia. rewrite <- Zlt_Qlt. lia. }
  rewrite <- two_add in Hlt.
  assert (Hle : (2 ^ (prec + z) <= 2 ^ (emax + 1))%Q) by (apply two_le; lia).
  apply (Qlt_irrefl (inject_Z m * 2 ^ z)).
  eapply Qlt_le_trans; [exact Hlt |].
  eapply Qle_trans; [exact Hle |].
  rewrite <- (two_inject (emax + 1)) by lia. exact E.
Qed.

(** A positive value of the format is what it rounds to. *)
Lemma round_pos_exact (prec emax : Z) (n d : positive) (m z : Z) :
  1 < prec → prec <= emax + 1 →
  (Zpos n # d == inject_Z m * 2 ^ z)%Q → 0 < m < 2 ^ prec →
  (1 - emax) - (prec - 1) <= z <= emax - (prec - 1) →
  JS.round_pos prec emax n d = Some (Qred (Zpos n # d)).
Proof.
  intros Hprec Hmax Ea Hm Hz.
  destruct (round_pos_spec prec emax n d) as [k [_ [_ [Pint [_ E]]]]].
  destruct (Z.log2_spec m (proj1 Hm)) as [Lm1 Lm2].
  pose proof (Z.log2_nonneg m) as Lm0.
  assert (Llog : Z.log2 m < prec) by (apply Z.log2_lt_pow2; lia).
  assert (Hi : JS.ilog2 n d = Z.log2 m + z).
  { apply ilog2_unique; rewrite Ea.
    - rewrite two_add, <- (two_inject (Z.log2 m)) by exact Lm0.
      apply Qmult_le_compat_r; [| apply Qlt_le_weak, two_pos].
      now rewrite <- Zle_Qle.
    - replace (Z.log2 m + z + 1) with (Z.succ (Z.log2 m) + z) by lia.
      rewrite two_add, <- (two_inject (Z.succ (Z.log2 m))) by lia.
      apply Qmult_lt_compat_r; [apply two_pos |].
      now rewrite <- Zlt_Qlt. }
  rewrite Hi in *.
  set (u := Z.max (Z.log2 m + z) (1 - emax) - (prec - 1)) in *.
  assert (Hu : u <= z) by lia.
  assert (Ek : k = m * 2 ^ (z - u)).
  { apply Pint. rewrite Ea, times_two_nonneg by lia.
    replace z with (z - u + u) at 1 by lia. rewrite two_add.
    field. apply two_ne. }
  assert (Ew : (inject_Z k * 2 ^ u == Zpos n # d)%Q).
  { rewrite Ek, Ea, times_two_nonneg by lia.
    replace z with (z - u + u) at 2 by lia. rewrite two_add. ring. }
  rewrite E.
  rewrite (not_overflow prec emax m z) by (try lia; now rewrite Ew).
  f_equal. now apply Qred_complete.
Qed.

(** Every value of the format is what it rounds to. *)
Lemma round_exact (prec emax : Z) (q : Q) :
  1 < prec → prec <= emax + 1 →
  value_of prec emax q → JS.round prec emax q = Num (Qred q).
Proof.
  intros Hprec Hmax [m [z [Eq [Hm Hz]]]].
  unfold JS.round.
  pose proof (Qred_correct q) as Ered.
  destruct (Qred q) as [[| n | n] d] eqn:Er.
  - f_equal. rewrite <- Er. symmetry. apply (Qred_complete q 0).
    rewrite <- Ered. reflexivity.
  - assert (Hpos : 0 < m).
    { apply Z.nle_gt. intros Hle.
      assert (Hneg : (inject_Z m * 2 ^ z <= 0 * 2 ^ z)%Q).
      { apply Qmult_le_compat_r; [| apply Qlt_le_weak, two_pos].
        unfold Qle. cbn [Qnum Qden inject_Z]. lia. }
      rewrite Qmult_0_l, <- Eq, <- Ered in Hneg. now apply Hneg. }
    rewrite (round_pos_exact prec emax n d m z) by (try lia; now rewrite Ered).
    f_equal. rewrite <- Er. apply Qred_complete, Qred_correct.
  - assert (Hneg : m < 0).
    { apply Z.nle_gt. intros Hle.
      assert (Hpos : (0 * 2 ^ z <= inject_Z m * 2 ^ z)%Q).
      { apply Qmult_le_compat_r; [| apply Qlt_le_weak, two_pos].
        unfold Qle. cbn [Qnum Qden inject_Z]. lia. }
      rewrite Qmult_0_l, <- Eq, <- Ered in Hpos. now apply Hpos. }
    rewrite (round_pos_exact prec emax n d (- m) z); try lia.
    + f_equal. change (Z.neg n # d) with (- (Zpos n # d))%Q.
      rewrite <- Qred_opp. change (- (Zpos n # d))%Q with (Z.neg n # d).
      rewrite <- Er. apply Qred_complete, Qred_correct.
    + rewrite inject_Z_opp.
      transitivity (- (Z.neg n # d))%Q; [reflexivity |].
      rewrite Ered, Eq. ring.
Qed.

Lemma value_of_opp (prec emax : Z) (q : Q) :
  value_of prec emax q → value_of prec emax (- q).
Proof.
  intros [m [z [Eq [Hm Hz]]]]. exists (- m), z.
  split; [rewrite Eq, inject_Z_opp; ring | split; [lia | exact Hz]].
Qed.

(** What [round_pos] gives is a value of the format. *)
Lemma round_pos_value (prec emax : Z) (n d : positive) (v : Q) :
  1 < prec → prec <= emax + 1 →
  JS.round_pos prec emax n d = Some v → value_of prec emax v.
Proof.
  intros Hprec Hmax H.
  destruct (round_pos_spec prec emax n d) as [m [Plo [Phi [_ [_ E]]]]].
  destruct (ilog2_spec n d) as [Ilo Ihi].
  set (i := JS.ilog2 n d) in *. set (emin := 1 - emax) in *.
  set (u := Z.max i emin - (prec - 1)) in *.
  rewrite E in H.
  destruct (Qle_bool (inject_Z (2 ^ (emax + 1))) (inject_Z m * 2 ^ u)) eqn:Eover;
    [discriminate H |].
  injection H as <-.
  assert (Hfits : (inject_Z m * 2 ^ u < 2 ^ (emax + 1))%Q).
  { apply Qnot_le_lt. intros Hle.
    rewrite <- (two_inject (emax + 1)) in Hle by lia.
    apply Qle_bool_iff in Hle. congruence. }
  assert (Hm0 : 0 <= m).
  { apply Plo. apply Qle_shift_div_l; [apply two_pos |].
    rewrite Qmult_0_l. discriminate. }
  assert (Hupper : m <= 2 ^ prec).
  { apply Phi. apply Qlt_shift_div_r; [apply two_pos |].
    rewrite (two_inject prec) by lia. rewrite <- two_add.
    eapply Qlt_le_trans; [exact Ihi |]. apply two_le. lia. }
  assert (Hu : u <= emax - (prec - 1)).
  { apply Z.nlt_ge. intros Hbig.
    assert (Hlower : 2 ^ (prec - 1) <= m).
    { apply Plo. apply Qle_shift_div_l; [apply two_pos |].
      rewrite (two_inject (prec - 1)) by lia. rewrite <- two_add.
      eapply Qle_trans; [| exact Ilo]. apply two_le. lia. }
    apply (Qlt_irrefl (inject_Z m * 2 ^ u)).
    eapply Qlt_le_trans; [exact Hfits |].
    apply Qle_trans with (2 ^ (prec - 1 + u))%Q; [apply two_le; lia |].
    rewrite two_add, <- (two_inject (prec - 1)) by lia.
    apply Qmult_le_compat_r; [| apply Qlt_le_weak, two_pos].
    now rewrite <- Zle_Qle. }
  destruct (Z.eq_dec m (2 ^ prec)) as [Em | Nm].
  - exists (2 ^ (prec - 1)), (u + 1).
    assert (0 < 2 ^ (prec - 1)) by (apply Z.pow_pos_nonneg; lia).
    assert (E2 : 2 ^ prec = 2 * 2 ^ (prec - 1)).
    { replace prec with (Z.succ (prec - 1)) at 1 by lia.
      apply Z.pow_succ_r. lia. }
    split.
    + rewrite Qred_correct, Em, E2, inject_Z_mult, two_add.
      change (2 ^ 1)%Q with 2%Q. change (inject_Z 2) with 2%Q. ring.
    + split; [lia |]. split; [lia |].
      apply Z.nlt_ge. intros Hbig.
      apply (Qlt_irrefl (inject_Z m * 2 ^ u)).
      eapply Qlt_le_trans; [exact Hfits |].
      rewrite Em, (two_inject prec), <- two_add by lia. apply two_le. lia.
  - exists m, u. split; [apply Qred_correct |]. split; lia.
Qed.

(** What rounding gives, when it is finite, is a value of the format. *)
Lemma round_value (prec emax : Z) (q x : Q) :
  1 < prec → prec <= emax + 1 →
  JS.round prec emax q = Num x → value_of prec emax x.
Proof.
  intros Hprec Hmax. unfold JS.round.
  destruct (Qred q) as [[| n | n] d].
  - intros [= <-]. exists 0, ((1 - emax) - (prec - 1)).
    split; [now rewrite Qmult_0_l |]. split; [| lia].
    assert (0 < 2 ^ prec) by (apply Z.pow_pos_nonneg; lia). lia.
  - destruct (JS.round_pos prec emax n d) as [v |] eqn:Ev; [| discriminate].
    intros [= <-]. now apply (round_pos_value prec emax n d).
  - destruct (JS.round_pos prec emax n d) as [v |] eqn:Ev; [| discriminate].
    intros [= <-]. apply value_of_opp. now apply (round_pos_value prec emax n d).
Qed.

(** No value of the format is nearer to the fraction than what [round_pos]
    gives. *)
Lemma round_pos_nearest (prec emax : Z) (n d : positive) (v f : Q) :
  1 < prec → prec <= emax + 1 →
  JS.round_pos prec emax n d = Some v → value_of prec emax f →
  (Qabs (v - (Zpos n # d)) <= Qabs (f - (Zpos n # d)))%Q.
Proof.
  intros Hprec Hmax H [mf [z [Ef [Hmf Hz]]]].
  destruct (round_pos_spec prec emax n d) as [m [_ [_ [_ [Pnear E]]]]].
  destruct (ilog2_spec n d) as [Ilo _].
  set (a := (Zpos n # d)) in *.
  set (i := JS.ilog2 n d) in *. set (emin := 1 - emax) in *.
  set (u := Z.max i emin - (prec - 1)) in *.
  rewrite E in H.
  destruct (Qle_bool (inject_Z (2 ^ (emax + 1))) (inject_Z m * 2 ^ u));
    [discriminate H |].
  injection H as <-.
  assert (Hscale : ∀ k, (Qabs (inject_Z k * 2 ^ u - a)
                         == 2 ^ u * Qabs (inject_Z k - a / 2 ^ u))%Q).
  { intros k.
    assert (Ek : (inject_Z k * 2 ^ u - a == 2 ^ u * (inject_Z k - a / 2 ^ u))%Q).
    { field. apply two_ne. }
    rewrite Ek, Qabs_Qmult.
    now rewrite (Qabs_pos (2 ^ u)) by apply Qlt_le_weak, two_pos. }
  assert (Hmult : ∀ k, (Qabs (Qred (inject_Z m * 2 ^ u) - a)
                        <= Qabs (inject_Z k * 2 ^ u - a))%Q).
  { intros k. rewrite Qred_correct, !Hscale.
    apply Qmult_le_l; [apply two_pos | apply Pnear]. }
  destruct (Z.le_gt_cases u z) as [Hzu | Hzu].
  - assert (E' : (f == inject_Z (mf * 2 ^ (z - u)) * 2 ^ u)%Q).
    { rewrite Ef, times_two_nonneg by lia.
      replace z with (z - u + u) at 1 by lia. rewrite two_add. ring. }
    rewrite E'. apply Hmult.
  - assert (Ei : (2 ^ i == inject_Z (2 ^ (prec - 1)) * 2 ^ u)%Q).
    { rewrite (two_inject (prec - 1)), <- two_add by lia.
      replace (prec - 1 + u) with i by lia. reflexivity. }
    assert (Hf : (f <= 2 ^ i)%Q).
    { rewrite Ef.
      apply Qle_trans with (inject_Z (2 ^ prec) * 2 ^ z)%Q.
      - apply Qmult_le_compat_r; [| apply Qlt_le_weak, two_pos].
        rewrite <- Zle_Qle. lia.
      - rewrite (two_inject prec), <- two_add by lia. apply two_le. lia. }
    apply Qle_trans with (Qabs (2 ^ i - a)); [rewrite Ei; apply Hmult |].
    rewrite (Qabs_neg (2 ^ i - a)), (Qabs_neg (f - a)).
    + apply Qopp_le_compat. unfold Qminus. now apply Qplus_le_l.
    + apply (Qplus_le_l _ _ a). ring_simplify. now apply Qle_trans with (2 ^ i)%Q.
    + apply (Qplus_le_l _ _ a). now ring_simplify.
Qed.

(** No value of the format is nearer to a number than what rounding gives. *)
Lemma round_nearest (prec emax : Z) (q x f : Q) :
  1 < prec → prec <= emax + 1 →
  JS.round prec emax q = Num x → value_of prec emax f →
  (Qabs (x - q) <= Qabs (f - q))%Q.
Proof.
  intros Hprec Hmax. unfold JS.round.
  pose proof (Qred_correct q) as Ered.
  destruct (Qred q) as [[| n | n] d].
  - intros [= <-] _. rewrite <- Ered.
    assert (E0 : (Qabs (0 - (0 # d)) == 0)%Q) by reflexivity.
    rewrite E0. apply Qabs_nonneg.
  - destruct (JS.round_pos prec emax n d) as [v |] eqn:Ev; [| discriminate].
    intros [= <-] Hf. rewrite <- Ered.
    now apply (round_pos_nearest prec emax n d).
  - destruct (JS.round_pos prec emax n d) as [v |] eqn:Ev; [| discriminate].
    intros [= <-] Hf. rewrite <- Ered.
    pose proof (round_pos_nearest prec emax n d v (- f) Hprec Hmax Ev
                  (value_of_opp _ _ _ Hf)) as Hnear.
    assert (E1 : (- v - (Z.neg n # d) == - (v - (Zpos n # d)))%Q).
    { change (Z.neg n # d) with (- (Zpos n # d))%Q. ring. }
    assert (E2 : (f - (Z.neg n # d) == - (- f - (Zpos n # d)))%Q).
    { change (Z.neg n # d) with (- (Zpos n # d))%Q. ring. }
    now rewrite E1, E2, !Qabs_opp.
Qed.

(** An overflow is of a fraction of the last binade or beyond. *)
Lemma round_pos_overflow (prec emax : Z) (n d : positive) :
  1 < prec → prec <= emax + 1 →
  JS.round_pos prec emax n d = None → (2 ^ emax <= Zpos n # d)%Q.
Proof.
  intros Hprec Hmax H.
  destruct (round_pos_spec prec emax n d) as [m [_ [Phi [_ [_ E]]]]].
  destruct (ilog2_spec n d) as [Ilo Ihi].
  set (i := JS.ilog2 n d) in *. set (emin := 1 - emax) in *.
  set (u := Z.max i emin - (prec - 1)) in *.
  rewrite E in H.
  destruct (Qle_bool (inject_Z (2 ^ (emax + 1))) (inject_Z m * 2 ^ u)) eqn:Eover;
    [| discriminate H].
  apply Qle_bool_iff in Eover. rewrite (two_inject (emax + 1)) in Eover by lia.
  assert (Hupper : m <= 2 ^ prec).
  { apply Phi. apply Qlt_shift_div_r; [apply two_pos |].
    rewrite (two_inject prec) by lia. rewrite <- two_add.
    eapply Qlt_le_trans; [exact Ihi |]. apply two_le. lia. }
  assert (Hpow : (2 ^ (emax + 1) <= 2 ^ (prec + u))%Q).
  { eapply Qle_trans; [exact Eover |].
    rewrite two_add, <- (two_inject prec) by lia.
    apply Qmult_le_compat_r; [| apply Qlt_le_weak, two_pos].
    now rewrite <- Zle_Qle. }
  apply Qpower_le_compat_l_inv in Hpow; [| reflexivity].
  eapply Qle_trans; [| exact Ilo]. apply two_le. lia.
Qed.

(** What rounding gives is in lowest terms. *)
Lemma round_reduced (prec emax : Z) (q x : Q) :
  JS.round prec emax q = Num x → Qred x = x.
Proof.
  unfold JS.round. destruct (Qred q) as [[| n | n] d].
  - now intros [= <-].
  - destruct (JS.round_pos prec emax n d) as [v |] eqn:Ev; [| discriminate].
    intros [= <-]. now apply (round_pos_reduced prec emax n d).
  - destruct (JS.round_pos prec emax n d) as [v |] eqn:Ev; [| discriminate].
    intros [= <-]. rewrite Qred_opp. f_equal.
    now apply (round_pos_reduced prec emax n d).
Qed.

(** Rounding is idempotent. *)
Lemma round_again (prec emax : Z) (q x : Q) :
  1 < prec → prec <= emax + 1 →
  JS.round prec emax q = Num x → JS.round prec emax x = Num x.
Proof.
  intros Hprec Hmax E.
  rewrite (round_exact prec emax x) by (try assumption; now apply (round_value _ _ q)).
  f_equal. now apply (round_reduced prec emax q).
Qed.

(** The conversion to binary32: what it gives is a binary32 value, it leaves
    every binary32 value as it is, and it does not depend on how the number
    is written as a fraction. *)
Lemma fround_value (a : number) (x : Q) :
  JS.fround a = Num x → binary32_value x.
Proof.
  destruct a as [q | |]; [| discriminate ..]. cbn [JS.fround].
  now apply round_value.
Qed.

(** The conversion gives a nearest binary32 value. *)
Lemma fround_nearest (a : number) : nearest_binary32 a (JS.fround a).
Proof.
  destruct a as [q | | s]; [| exact I | reflexivity].
  cbn [JS.fround]. destruct (JS.binary32 q) as [x | | s] eqn:E.
  - split; [now apply (round_value 24 127 q) |].
    intros f Hf. now apply (round_nearest 24 127 q x f).
  - exfalso. revert E. unfold JS.binary32, JS.round.
    destruct (Qred q) as [[| n | n] d]; [discriminate | |];
      destruct (JS.round_pos 24 127 n d); discriminate.
  - revert E. unfold JS.binary32, JS.round.
    pose proof (Qred_correct q) as Ered.
    destruct (Qred q) as [[| n | n] d]; [discriminate | |];
      destruct (JS.round_pos 24 127 n d) eqn:Ev; try discriminate;
      intros [= <-]; cbn [nearest_binary32];
      pose proof (round_pos_overflow 24 127 n d eq_refl ltac:(lia) Ev) as Hbig;
      rewrite <- Ered.
    + exact Hbig.
    + change (Z.neg n # d) with (- (Zpos n # d))%Q. now apply Qopp_le_compat.
Qed.

Lemma stored_nearest (p : number * number) : nearest_binary32_point p (stored p).
Proof. split; apply fround_nearest. Qed.

Lemma fround_exact (x : Q) :
  binary32_value x → JS.same (JS.fround (Num x)) (Num x).
Proof.
  intros Hx. cbn [JS.fround]. unfold JS.binary32.
  rewrite (round_exact 24 127 x) by (assumption || lia).
  cbn [JS.same]. apply Qred_correct.
Qed.

Lemma fround_idempotent (a : number) : JS.fround (JS.fround a) = JS.fround a.
Proof.
  destruct a as [q | |]; [| reflexivity | reflexivity].
  cbn [JS.fround]. destruct (JS.binary32 q) as [x | |] eqn:E; [| reflexivity ..].
  cbn [JS.fround]. now apply (round_again 24 127 q x).
Qed.

Lemma fround_same (a b : number) : JS.same a b → JS.fround a = JS.fround b.
Proof.
  destruct a as [x | | s], b as [y | | t]; cbn [JS.same]; try contradiction;
    try congruence.
  intros E. cbn [JS.fround]. unfold JS.binary32, JS.round.
  now rewrite (Qred_complete _ _ E).
Qed.

(** An integer below 2^24 in magnitude is a binary32 value. *)
Lemma integer_binary32_value (n : Z) (q : Q) :
  (q == inject_Z n)%Q → Z.abs n < 2 ^ 24 → binary32_value q.
Proof.
  intros E Hn. exists n, 0. split; [| split; [exact Hn | lia]].
  rewrite E. change (2 ^ 0)%Q with 1%Q. now rewrite Qmult_1_r.
Qed.

(** A point with binary32 coordinates is stored as it is. *)
Lemma stored_binary32_point (p : number * number) :
  binary32_point p → same2 (stored p) p.
Proof.
  intros [x [y [-> [Hx Hy]]]]. split; now apply fround_exact.
Qed.

(** Where the exponent is not negative it is a lower bound: 2^l <= n/d. *)
Lemma ilog2_lower (n d : positive) :
  0 <= JS.ilog2 n d → Zpos d * 2 ^ JS.ilog2 n d <= Zpos n.
Proof.
  unfold JS.ilog2.
  set (l := Z.log2 (Zpos n) - Z.log2 (Zpos d)).
  destruct (Z.leb_spec 0 l) as [Hl | Hl].
  - destruct (Z.leb_spec (Zpos d * 2 ^ l) (Zpos n)) as [Hle | Hgt]; [easy |].
    intros Hpos.
    pose proof (Z.log2_spec (Zpos n) eq_refl) as [Hn _].
    pose proof (Z.log2_spec (Zpos d) eq_refl) as [_ Hd].
    pose proof (Z.log2_nonneg (Zpos d)) as Hd0.
    assert (E : 2 ^ Z.log2 (Zpos n) = 2 ^ Z.succ (Z.log2 (Zpos d)) * 2 ^ (l - 1)).
    { rewrite <- Z.pow_add_r by lia. f_equal. subst l. lia. }
    assert (0 < 2 ^ (l - 1)) by (apply Z.pow_pos_nonneg; lia).
    nia.
  - destruct (Zpos d <=? Zpos n * 2 ^ (- l)); lia.
Qed.

Lemma ilog2_nonneg (n d : positive) :
  Zpos d <= Zpos n → 0 <= JS.ilog2 n d.
Proof.
  intros Hle. unfold JS.ilog2.
  pose proof (Z.log2_le_mono _ _ Hle) as Hl.
  set (l := Z.log2 (Zpos n) - Z.log2 (Zpos d)) in *.
  destruct (Z.leb_spec 0 l) as [_ | ?]; [| lia].
  destruct (Z.leb_spec (Zpos d * 2 ^ l) (Zpos n)) as [_ | Hgt]; [lia |].
  assert (l ≠ 0); [| lia].
  intros E. rewrite E in Hgt. change (2 ^ 0) with 1 in Hgt. lia.
Qed.

(** A fraction that is at least 1 rounds to a positive number, when it does
    not overflow. *)
Lemma round_pos_positive (prec emax : Z) (n d : positive) (v : Q) :
  1 < prec → prec <= emax + 1 → Zpos d <= Zpos n →
  JS.round_pos prec emax n d = Some v → 0 < Qnum v.
Proof.
  intros Hprec Hmax Hle. unfold JS.round_pos.
  pose proof (ilog2_nonneg n d Hle) as Hi.
  pose proof (ilog2_lower n d Hi) as Hlow.
  rewrite Z.max_l by lia.
  set (u := JS.ilog2 n d - (prec - 1)).
  match goal with
  | |- (if Qle_bool _ ?x then _ else _) = _ → _ => set (w := x)
  end.
  assert (Hw : (0 < w)%Q).
  { subst w. destruct (Z.leb_spec 0 u) as [Hu | Hu].
    - assert (0 < 2 ^ u) by (apply Z.pow_pos_nonneg; lia).
      assert (2 ^ u <= 2 ^ JS.ilog2 n d) by (apply Z.pow_le_mono_r; lia).
      assert (1 <= Zpos n / (Zpos d * 2 ^ u)).
      { apply Z.div_le_lower_bound; nia. }
      pose proof (nearest_even_floor (Zpos n) (Zpos d * 2 ^ u)).
      rewrite <- (Zlt_Qlt 0). nia.
    - assert (0 < 2 ^ (- u)) by (apply Z.pow_pos_nonneg; lia).
      assert (1 <= Zpos n * 2 ^ (- u) / Zpos d).
      { apply Z.div_le_lower_bound; nia. }
      pose proof (nearest_even_floor (Zpos n * 2 ^ (- u)) (Zpos d)).
      unfold Qlt. cbn [Qnum Qden]. lia. }
  destruct (Qle_bool (inject_Z (2 ^ (emax + 1))) w); [discriminate |].
  intros [= <-].
  apply Qred_lt in Hw. unfold Qlt in Hw.
  change (Qnum (Qred 0)) with 0 in Hw. lia.
Qed.

(** A width of at least 1 is a width the context accepts. *)
Lemma width_accepted (old : number) (w : Q) :
  (1 <= w)%Q →
  WebGL.accepted_width old (Num w) = JS.fround (Num w).
Proof.
  intros Hw. unfold WebGL.accepted_width.
  assert (E : WebGL.positive_width (JS.fround (Num w)) = true); [| now rewrite E].
  unfold JS.fround, JS.binary32, JS.round.
  pose proof (Qred_correct w) as Ered.
  destruct (Qred w) as [n d].
  assert (Hle : Zpos d <= n).
  { rewrite <- Ered in Hw. unfold Qle in Hw. cbn [Qnum Qden] in Hw. lia. }
  destruct n as [| n | n]; try lia.
  destruct (JS.round_pos 24 127 n d) as [v |] eqn:Ev; [| reflexivity].
  cbn [WebGL.positive_width]. apply Z.ltb_lt.
  now apply (round_pos_positive 24 127 n d v).
Qed.

Section Line.
Context {Value : Type} (toNumber : Value → Q).

(** One call on an instance that can draw, with the line it hands to the
    pipeline. *)
Lemma drawGPULine_step (args : Scratch.LineArgs Value) (this : Instance)
    (gl0 : WebGL.Context) (d : Dim) (s : WebGL.VertexStage) :
  Ready this gl0 d →
  shaderProgram this = Some {| WebGL.stage := s; WebGL.linked := true |} →
  ∃ gl1,
    Current.drawGPULine toNumber args this = Normal tt (set_gl this (Some gl1)) ∧
    WebGL.drawn gl1 =
      WebGL.drawn gl0 ++
        [ {| WebGL.v0 :=
               {| WebGL.position :=
                    stored (centred d (toNumber (Scratch.X1 args))
                                      (toNumber (Scratch.Y1 args)));
                  WebGL.color := JS.Float32Array (pen (penColor this)) |};
             WebGL.v1 :=
               {| WebGL.position :=
                    stored (centred d (toNumber (Scratch.X2 args))
                                      (toNumber (Scratch.Y2 args)));
                  WebGL.color := JS.Float32Array (pen (penColor this)) |};
             WebGL.thickness :=
               WebGL.accepted_width (WebGL.line_width gl0) (Num (penWidth this));
             WebGL.vertex_stage := s;
             WebGL.resolution_seen :=
               stored (Num (inject_Z (width d)), Num (inject_Z (height d)));
             WebGL.transform_seen := WebGL.transform_uniform gl0 |} ] ∧
    WebGL.resolution_uniform gl1
      = stored (Num (inject_Z (width d)), Num (inject_Z (height d))) ∧
    WebGL.buffers gl1 = WebGL.buffers gl0 ∧
    WebGL.background gl1 = WebGL.background gl0 ∧
    WebGL.next_buffer gl1 = S (S (WebGL.next_buffer gl0)).
Proof.
  intros [Egl _ [t Einfo] Eres Hbelow] Eprog.
  set (program := {| WebGL.stage := s; WebGL.linked := true |}) in *.
  set (gl2 := WebGL.uniform2f (WebGL.useProgram gl0 program) WebGL.u_resolution
                (Num (inject_Z (width d))) (Num (inject_Z (height d)))).
  set (p0 := stored (centred d (toNumber (Scratch.X1 args))
                               (toNumber (Scratch.Y1 args)))).
  set (p1 := stored (centred d (toNumber (Scratch.X2 args))
                               (toNumber (Scratch.Y2 args)))).
  set (c1 := JS.fround (Num (r (penColor this)))).
  set (c2 := JS.fround (Num (g (penColor this)))).
  set (c3 := JS.fround (Num (b (penColor this)))).
  set (c4 := JS.fround (Num (a (penColor this)))).
  assert (Ecall : Current.drawGPULine toNumber args this
                  = Normal tt (set_gl this
                      (Some (line_calls gl2 [fst p0; snd p0; fst p1; snd p1]
                               [c1; c2; c3; c4; c1; c2; c3; c4]
                               (Num (penWidth this)))))).
  { unfold Current.drawGPULine. rewrite Egl, Eprog, Einfo, Eres. reflexivity. }
  assert (Egl2 : WebGL.current_program gl2 = Some program ∧
                 WebGL.resolution_uniform gl2
                   = stored (Num (inject_Z (width d)), Num (inject_Z (height d))) ∧
                 WebGL.transform_uniform gl2 = WebGL.transform_uniform gl0 ∧
                 WebGL.line_width gl2 = WebGL.line_width gl0 ∧
                 WebGL.drawn gl2 = WebGL.drawn gl0 ∧
                 WebGL.buffers gl2 = WebGL.buffers gl0 ∧
                 WebGL.background gl2 = WebGL.background gl0 ∧
                 WebGL.next_buffer gl2 = WebGL.next_buffer gl0).
  { subst gl2. destruct gl0. repeat split. }
  destruct Egl2
    as [Hprog [Hres [Htrans [Hwidth [Hdrawn [Hbuffers [Hbackground Hnext]]]]]]].
  assert (Hbelow2 : buffers_below_next gl2).
  { unfold buffers_below_next. rewrite Hbuffers, Hnext. exact Hbelow. }
  destruct (line_calls_draw gl2 program (fst p0) (snd p0) (fst p1) (snd p1)
              c1 c2 c3 c4 (Num (penWidth this)) Hprog Hbelow2)
    as [Edrawn [Ebuffers [Ebackground [Euniform Enext]]]].
  eexists. split; [exact Ecall |].
  split; [rewrite Edrawn, Hdrawn, Hres, Htrans, Hwidth; reflexivity |].
  split; [now rewrite Euniform |].
  split; [now rewrite Ebuffers |].
  split; [now rewrite Ebackground | now rewrite Enext, Hnext].
Qed.


End Line.

(** The instance of the scenario: a working browser, then the 4K preset. *)
Lemma scenario_4K_ready :
  ∃ gl0,
    Ready (final (Current.setResolution (Scenario.quality "4K")
                    (Current.constructor Scenario.all_fine)))
          gl0 p4K ∧
    WebGL.drawn gl0 = [] ∧
    WebGL.buffers gl0 = ∅.
Proof.
  eexists. split.
  - constructor.
    + reflexivity.
    + eexists. reflexivity.
    + eexists. reflexivity.
    + reflexivity.
    + intros i [store Hlive].
      change (WebGL.buffers _) with (∅ : gmap nat (list number)) in Hlive.
      rewrite lookup_empty in Hlive. discriminate Hlive.
  - split; reflexivity.
Defined.



(** * The identity transform of the older variant *)

Lemma same_refl (a : number) : JS.same a a.
Proof. destruct a; cbn; reflexivity. Qed.

Lemma same_trans (a b c : number) : JS.same a b → JS.same b c → JS.same a c.
Proof.
  destruct a, b, c; cbn; try contradiction; try congruence.
  intros E1 E2. now rewrite E1.
Qed.

Lemma identity3_stored : JS.Float32Array Older.identity3 = Older.identity3.
Proof. reflexivity. Qed.

Lemma zero_same (x y : Q) : (x == y)%Q → Qeq_bool x 0 = Qeq_bool y 0.
Proof.
  intros E. destruct (Qeq_bool x 0) eqn:Ex, (Qeq_bool y 0) eqn:Ey; try reflexivity.
  - apply Qeq_bool_iff in Ex. apply Qeq_bool_neq in Ey. rewrite <- E in Ey.
    contradiction.
  - apply Qeq_bool_iff in Ey. apply Qeq_bool_neq in Ex. rewrite E in Ex.
    contradiction.
Qed.

Lemma negative_same (x y : Q) : (x == y)%Q → JS.negative x = JS.negative y.
Proof.
  destruct x as [[| p | p] d], y as [[| q | q] e]; unfold Qeq, JS.negative;
    cbn; intros E; try reflexivity; discriminate E.
Qed.

Ltac same_done := first [reflexivity | exact I | apply same_refl].

Lemma neg_same (a b : number) : JS.same a b → JS.same (JS.neg a) (JS.neg b).
Proof.
  destruct a, b; cbn; try contradiction; try congruence.
  intros E. now rewrite E.
Qed.

Lemma add_same (a a' b b' : number) :
  JS.same a a' → JS.same b b' → JS.same (JS.add a b) (JS.add a' b').
Proof.
  destruct a, a', b, b'; cbn; try contradiction; try congruence;
    intros E1 E2; subst; try same_done.
  now rewrite E1, E2.
Qed.

Lemma sub_same (a a' b b' : number) :
  JS.same a a' → JS.same b b' → JS.same (JS.sub a b) (JS.sub a' b').
Proof. intros E1 E2. apply add_same; [exact E1 | now apply neg_same]. Qed.

Lemma mul_same (a a' b b' : number) :
  JS.same a a' → JS.same b b' → JS.same (JS.mul a b) (JS.mul a' b').
Proof.
  destruct a as [x | | s], a' as [x' | | s'], b as [y | | t], b' as [y' | | t'];
    cbn; try contradiction; try congruence; intros E1 E2; subst;
    try same_done.
  - now rewrite E1, E2.
  - rewrite (zero_same _ _ E1), (negative_same _ _ E1). same_done.
  - rewrite (zero_same _ _ E2), (negative_same _ _ E2). same_done.
Qed.

Lemma div_same (a a' b b' : number) :
  JS.same a a' → JS.same b b' → JS.same (JS.div a b) (JS.div a' b').
Proof.
  destruct a as [x | | s], a' as [x' | | s'], b as [y | | t], b' as [y' | | t'];
    cbn; try contradiction; try congruence; intros E1 E2; subst;
    try same_done.
  - rewrite (zero_same _ _ E1), (zero_same _ _ E2), (negative_same _ _ E1).
    destruct (Qeq_bool y' 0); [same_done |]. cbn. now rewrite E1, E2.
  - rewrite (negative_same _ _ E2). same_done.
Qed.

Lemma rounded_same (a b : number) :
  JS.same a b → JS.same (JS.fround a) (JS.fround b).
Proof. intros E. rewrite (fround_same _ _ E). apply same_refl. Qed.

(** IEEE 754 binary32 arithmetic is one the comparison applies to. *)
Lemma ieee_sound : Sound Scenario.ieee.
Proof.
  constructor; cbn [Scenario.ieee WebGL.plus WebGL.minus WebGL.times WebGL.over].
  - intros. now apply rounded_same, add_same.
  - intros. now apply rounded_same, sub_same.
  - intros. now apply rounded_same, mul_same.
  - intros. now apply rounded_same, div_same.
  - intros x Fx. rewrite (fround_same _ (Num x)) by apply Qmult_1_l.
    now apply fround_exact.
  - intros x Fx. rewrite (fround_same _ (Num 0)) by apply Qmult_0_l. apply same_refl.
  - intros x Fx. rewrite (fround_same _ (Num x)) by apply Qplus_0_r.
    now apply fround_exact.
  - intros x Fx. rewrite (fround_same _ (Num x)) by apply Qplus_0_l.
    now apply fround_exact.
Qed.

Section Identity.
Variable gpu : WebGL.Arithmetic.
Hypothesis sound : Sound gpu.

Lemma pixel_to_clip_same (res p p' : number * number) :
  same2 p p' →
  same2 (WebGL.pixel_to_clip gpu res p) (WebGL.pixel_to_clip gpu res p').
Proof.
  intros [Ex Ey]. unfold WebGL.pixel_to_clip. split; cbn [fst snd].
  - apply (minus_same gpu sound); [| apply same_refl].
    apply (times_same gpu sound); [| apply same_refl].
    apply (over_same gpu sound); [exact Ex | apply same_refl].
  - apply (times_same gpu sound); [| apply same_refl].
    apply (minus_same gpu sound); [| apply same_refl].
    apply (times_same gpu sound); [| apply same_refl].
    apply (over_same gpu sound); [exact Ey | apply same_refl].
Qed.

(** The identity matrix gives the position back, when its coordinates are
    finite. *)
Lemma identity_transform (x y : Q) :
  binary32_value x → binary32_value y →
  same2 (WebGL.transform gpu Older.identity3 (Num x, Num y)) (Num x, Num y).
Proof.
  intros Fx Fy.
  pose proof (times_zero gpu sound 1
                (integer_binary32_value 1 1 (Qeq_refl 1) eq_refl)) as Hlast.
  unfold WebGL.transform, Older.identity3. cbn [nth fst snd]. split.
  - apply same_trans with (WebGL.plus gpu (Num x) (Num 0));
      [| now apply (plus_zero_r gpu sound)].
    apply (plus_same gpu sound); [| exact Hlast].
    apply same_trans with (WebGL.plus gpu (Num x) (Num 0));
      [| now apply (plus_zero_r gpu sound)].
    apply (plus_same gpu sound);
      [now apply (times_one gpu sound) | now apply (times_zero gpu sound)].
  - apply same_trans with (WebGL.plus gpu (Num y) (Num 0));
      [| now apply (plus_zero_r gpu sound)].
    apply (plus_same gpu sound); [| exact Hlast].
    apply same_trans with (WebGL.plus gpu (Num 0) (Num y));
      [| now apply (plus_zero_l gpu sound)].
    apply (plus_same gpu sound);
      [now apply (times_zero gpu sound) | now apply (times_one gpu sound)].
Qed.

(** With the identity matrix the older vertex stage computes the clip-space
    position the current one computes. *)
Lemma identity_transform_inert (res : number * number) (m : list number) (x y : Q) :
  binary32_value x → binary32_value y →
  same2 (WebGL.run_vertex_stage gpu WebGL.TransformThenPixelToClip res
           (JS.Float32Array Older.identity3) (Num x, Num y))
        (WebGL.run_vertex_stage gpu WebGL.PixelToClip res m (Num x, Num y)).
Proof.
  intros Fx Fy. unfold WebGL.run_vertex_stage. rewrite identity3_stored.
  apply pixel_to_clip_same. now apply identity_transform.
Qed.

End Identity.

Section Variants.
Context {Value : Type} (toNumber : Value → Q).


End Variants.

(** * Blocks that do not look at the graphics side *)


(** C10. [setPenColor], [setPenWidth], [enableGPURendering],
    [disableGPURendering], [isGPUEnabled], [getResolutionWidth] and
    [getResolutionHeight] are indifferent to the graphics side: whatever the
    canvas, the context, the program and its locations are (present or null,
    linked or not), each returns normally, with the same value and the same
    change of the rest of the instance, and leaves the graphics side alone. *)
Theorem blocks_indifferent_to_graphics {Value : Type} (toNumber : Value → Q)
    (color : Scratch.ColorArgs Value) (width : Scratch.WidthArgs Value)
    (util : Scratch.Util) :
  indifferent (Current.setPenColor toNumber color) ∧
  indifferent (Current.setPenWidth toNumber width) ∧
  indifferent (Current.enableGPURendering util) ∧
  indifferent (Current.disableGPURendering util) ∧
  indifferent (Current.isGPUEnabled util) ∧
  indifferent Current.getResolutionWidth ∧
  indifferent Current.getResolutionHeight.
Proof.
  repeat split; intros this that; do 2 eexists; split; reflexivity.
Qed.

(** * Initialisation *)

Lemma constructor_presence (browser : Browser) :
  present (glCanvas (Current.constructor browser)) = true ∧
  present (gl (Current.constructor browser)) = gives_context browser ∧
  present (shaderProgram (Current.constructor browser))
    = gives_context browser && compiles browser ∧
  present (programInfo (Current.constructor browser))
    = gives_context browser && compiles browser && links browser ∧
  (∀ program, shaderProgram (Current.constructor browser) = Some program →
              WebGL.linked program = links browser).
Proof.
  destruct browser as [[] [] [] [] []]; cbn;
    repeat split; intros program [= <-]; reflexivity.
Qed.

(** X2. When the browser gives a context, compiles both shaders and links the
    program, the constructed instance can draw at 854x480, with blending on
    as (SRC_ALPHA, ONE_MINUS_SRC_ALPHA), a transparent surface with nothing
    drawn, and no buffer. *)
Theorem constructor_ready (browser : Browser) :
  gives_context browser && compiles browser && links browser = true →
  ∃ gl0,
    Ready (Current.constructor browser) gl0 p480 ∧
    WebGL.blend gl0 = true ∧
    WebGL.blend_func gl0 = (WebGL.SRC_ALPHA, WebGL.ONE_MINUS_SRC_ALPHA) ∧
    WebGL.background gl0 = WebGL.transparent ∧
    WebGL.drawn gl0 = [] ∧
    WebGL.buffers gl0 = ∅ ∧
    WebGL.viewport_box gl0 = (0, 0, 854, 480).
Proof.
  intros Hfine.
  assert (Egl : gl (Current.constructor browser)
                = gl (Current.constructor Scenario.all_fine) ∧
                shaderProgram (Current.constructor browser)
                = shaderProgram (Current.constructor Scenario.all_fine) ∧
                programInfo (Current.constructor browser)
                = programInfo (Current.constructor Scenario.all_fine) ∧
                resolution (Current.constructor browser) = Preset p480).
  { destruct browser as [[] [] [] [] []]; try discriminate Hfine; repeat split. }
  destruct Egl as [Egl [Eprog [Einfo Eres]]].
  eexists. split.
  - constructor.
    + rewrite Egl. reflexivity.
    + rewrite Eprog. eexists. reflexivity.
    + rewrite Einfo. eexists. reflexivity.
    + exact Eres.
    + intros i [store Hlive]. cbn in Hlive.
      rewrite lookup_empty in Hlive. discriminate Hlive.
  - repeat split.
Qed.

Lemma constructor_ready_witness :
  ∃ gl0,
    Ready (Current.constructor Scenario.all_fine) gl0 p480 ∧
    WebGL.blend gl0 = true ∧
    WebGL.drawn gl0 = [].
Proof.
  destruct (constructor_ready Scenario.all_fine eq_refl)
    as [gl0 [Hready [Hblend [_ [_ [Hdrawn _]]]]]].
  exists gl0. split; [exact Hready |]. split; assumption.
Defined.

(** * What the blocks leave alone *)

Section Readiness.
Context {Value : Type} (toNumber : Value → Q).

Lemma call_keeps_readiness (block : Host.Block Value) (this : Instance) :
  shaderProgram (Host.call toNumber this block) = shaderProgram this ∧
  programInfo (Host.call toNumber this block) = programInfo this ∧
  present (gl (Host.call toNumber this block)) = present (gl this) ∧
  present (glCanvas (Host.call toNumber this block)) = present (glCanvas this).
Proof.
  destruct this as [[canvas |] [gl0 |] ? ? ? [program |] [info |] ? ?];
    destruct block; repeat split.
Qed.

Lemma run_keeps_readiness (blocks : list (Host.Block Value)) (this : Instance) :
  shaderProgram (Host.run toNumber blocks this) = shaderProgram this ∧
  programInfo (Host.run toNumber blocks this) = programInfo this ∧
  present (gl (Host.run toNumber blocks this)) = present (gl this) ∧
  present (glCanvas (Host.run toNumber blocks this)) = present (glCanvas this).
Proof.
  revert this. induction blocks as [| block blocks IH]; intros this.
  - repeat split.
  - cbn [Host.run foldl].
    destruct (IH (Host.call toNumber this block)) as [E1 [E2 [E3 E4]]].
    destruct (call_keeps_readiness block this) as [F1 [F2 [F3 F4]]].
    unfold Host.run in *.
    rewrite E1, E2, E3, E4, F1, F2, F3, F4. repeat split.
Qed.

(** X1. What the constructor obtained is what the instance has for good: after
    any sequence of blocks there is a canvas; there is a context exactly when
    the browser gave one of the two kinds; a program object exactly when
    there was a context and both shaders compiled, and it is linked exactly
    when the browser linked it; and its locations exactly when it linked.  No
    block retries the initialisation and none drops what it obtained. *)
Theorem initialisation_is_permanent
    (browser : Browser) (blocks : list (Host.Block Value)) :
  let this := Host.run toNumber blocks (Current.constructor browser) in
  present (glCanvas this) = true ∧
  present (gl this) = gives_context browser ∧
  present (shaderProgram this) = gives_context browser && compiles browser ∧
  present (programInfo this)
    = gives_context browser && compiles browser && links browser ∧
  (∀ program, shaderProgram this = Some program →
              WebGL.linked program = links browser).
Proof.
  destruct (run_keeps_readiness blocks (Current.constructor browser))
    as [Eprog [Einfo [Egl Ecanvas]]].
  destruct (constructor_presence browser) as [Hcanvas [Hgl [Hprog [Hinfo Hlinked]]]].
  cbv zeta. rewrite Eprog, Einfo, Egl, Ecanvas.
  repeat split; assumption.
Qed.

Lemma drawGPULine_throws (args : Scratch.LineArgs Value) (this : Instance) :
  throws (Current.drawGPULine toNumber args this)
    = present (gl this) && present (shaderProgram this)
      && negb (present (programInfo this)).
Proof.
  unfold Current.drawGPULine.
  destruct (gl this), (shaderProgram this), (programInfo this); reflexivity.
Qed.

(** X3. The only exception a block of the current variant ever raises: after any
    sequence of blocks on a constructed instance, a block throws exactly when
    it is [drawGPULine] and the constructor had a context, compiled both
    shaders and failed to link the program. *)
Theorem block_throws_iff_link_failed
    (browser : Browser) (blocks : list (Host.Block Value)) (block : Host.Block Value) :
  block_throws toNumber
    (Host.run toNumber blocks (Current.constructor browser)) block
    = gives_context browser && compiles browser && negb (links browser)
      && is_drawGPULine block.
Proof.
  destruct (run_keeps_readiness blocks (Current.constructor browser))
    as [Eprog [Einfo [Egl _]]].
  destruct (constructor_presence browser) as [_ [Hgl [Hprog [Hinfo _]]]].
  set (this := Host.run toNumber blocks (Current.constructor browser)) in *.
  destruct block; cbn [block_throws is_drawGPULine];
    try (rewrite andb_false_r; reflexivity).
  - rewrite drawGPULine_throws, Eprog, Einfo, Egl, Hgl, Hprog, Hinfo.
    destruct (gives_context browser), (compiles browser), (links browser);
      reflexivity.
  - rewrite andb_false_r. unfold Current.clearGPUCanvas.
    destruct (gl this); reflexivity.
Qed.

End Readiness.

(** * The pen over sequences of blocks *)

Section PenInvariant.
Context {Value : Type} (toNumber : Value → Q).

Lemma call_keeps_pen (block : Host.Block Value) (this : Instance) :
  match block with
  | Host.SetPenColor _ =>
      penWidth (Host.call toNumber this block) = penWidth this
  | Host.SetPenWidth _ =>
      penColor (Host.call toNumber this block) = penColor this
  | _ =>
      penColor (Host.call toNumber this block) = penColor this ∧
      penWidth (Host.call toNumber this block) = penWidth this
  end.
Proof.
  destruct this as [[canvas |] [gl0 |] ? ? ? [program |] [info |] ? ?];
    destruct block; repeat split.
Qed.

Lemma call_keeps_pen_in_range (block : Host.Block Value) (this : Instance) :
  pen_in_range this → pen_in_range (Host.call toNumber this block).
Proof.
  intros [Hw [Hr [Hg [Hb Ha]]]].
  pose proof (call_keeps_pen block this) as Hkeep.
  unfold pen_in_range.
  destruct block;
    try (lazymatch type of Hkeep with
         | _ ∧ _ => destruct Hkeep as [Ec Ew]; rewrite Ec, Ew; now repeat split
         end).
  - rewrite Hkeep. split; [exact Hw |]. cbn.
    destruct (channel_normalised (toNumber (Scratch.R args))) as [_ Br].
    destruct (channel_normalised (toNumber (Scratch.G args))) as [_ Bg].
    destruct (channel_normalised (toNumber (Scratch.B args))) as [_ Bb].
    repeat split; try apply Br; try apply Bg; try apply Bb.
  - rewrite Hkeep. split; [| now repeat split]. cbn.
    apply Q.le_max_l.
Qed.

(** X4. The pen stays within its ranges: on a constructed instance, after any
    sequence of blocks with any arguments, the pen width is at least 1, the
    three colour channels are in [0, 1] and alpha is 1. *)
Theorem pen_stays_in_range (browser : Browser) (blocks : list (Host.Block Value)) :
  pen_in_range (Host.run toNumber blocks (Current.constructor browser)).
Proof.
  assert (Hstart : pen_in_range (Current.constructor browser)).
  { assert (E : penColor (Current.constructor browser) = penColor fields ∧
                penWidth (Current.constructor browser) = penWidth fields).
    { destruct browser as [[] [] [] [] []]; split; reflexivity. }
    destruct E as [Ec Ew]. unfold pen_in_range. rewrite Ec, Ew. cbn.
    repeat split; discriminate. }
  revert Hstart. generalize (Current.constructor browser).
  induction blocks as [| block blocks IH]; intros this Hthis.
  - exact Hthis.
  - cbn [Host.run foldl]. apply IH. now apply call_keeps_pen_in_range.
Qed.

End PenInvariant.

(** * The flags of the other sprites *)

Section RegistryFrame.
Context {Value : Type} (toNumber : Value → Q).

Lemma call_keeps_registry (block : Host.Block Value) (this : Instance) :
  gpuSprites (Host.call toNumber this block) =
    match block with
    | Host.EnableGPURendering util => {[ Scratch.target_id util ]} ∪ gpuSprites this
    | Host.DisableGPURendering util => gpuSprites this ∖ {[ Scratch.target_id util ]}
    | _ => gpuSprites this
    end.
Proof.
  destruct this as [[canvas |] [gl0 |] ? ? ? [program |] [info |] ? ?];
    destruct block; reflexivity.
Qed.

(** X5. A sprite's flag changes only by [enableGPURendering] or
    [disableGPURendering] run by that sprite: any other block, and those two
    run by another sprite, leave what [isGPUEnabled] returns for it; and
    disabling a sprite whose flag is off, or enabling one whose flag is on,
    leaves the whole instance as it was. *)
Theorem flag_changes_only_by_its_sprite (id : string) (this : Instance) :
  (∀ block : Host.Block Value,
     (∀ util, block = Host.EnableGPURendering util → Scratch.target_id util ≠ id) →
     (∀ util, block = Host.DisableGPURendering util → Scratch.target_id util ≠ id) →
     ∃ flag,
       Current.isGPUEnabled (Scenario.sprite id) this = Normal flag this ∧
       Current.isGPUEnabled (Scenario.sprite id) (Host.call toNumber this block)
         = Normal flag (Host.call toNumber this block)) ∧
  (id ∉ gpuSprites this →
     Current.disableGPURendering (Scenario.sprite id) this = Normal tt this) ∧
  (id ∈ gpuSprites this →
     Current.enableGPURendering (Scenario.sprite id) this = Normal tt this).
Proof.
  split; [| split].
  - intros block Henable Hdisable. eexists. split; [reflexivity |].
    unfold Current.isGPUEnabled. f_equal. cbn [Scenario.sprite Scratch.target_id].
    apply bool_decide_ext. rewrite call_keeps_registry.
    destruct block; try reflexivity.
    + specialize (Henable util eq_refl).
      rewrite elem_of_union, elem_of_singleton. split; [| tauto].
      intros [E | Hin]; [| exact Hin]. now destruct Henable.
    + specialize (Hdisable util eq_refl).
      rewrite elem_of_difference, elem_of_singleton. split; [tauto |].
      intros Hin. split; [exact Hin |]. intros E. now destruct Hdisable.
  - intros Habsent. unfold Current.disableGPURendering. f_equal.
    destruct this. unfold set_gpuSprites. cbn in *. f_equal.
    apply difference_disjoint_L. now apply disjoint_singleton_r.
  - intros Hpresent. unfold Current.enableGPURendering. f_equal.
    destruct this. unfold set_gpuSprites. cbn in *. f_equal.
    apply subseteq_union_1_L. now apply singleton_subseteq_l.
Qed.

End RegistryFrame.

(** Sprite B's block does not change sprite A's flag, and sprite B, never
    enabled, is disabled without any change. *)
Lemma flag_changes_only_by_its_sprite_witness :
  let this := final (Current.enableGPURendering (Scenario.sprite "A")
                       (Current.constructor Scenario.all_fine)) in
  Current.isGPUEnabled (Scenario.sprite "A")
    (Host.call Scenario.number_is_number this
       (Host.DisableGPURendering (Scenario.sprite "B")))
    = Normal true
        (Host.call Scenario.number_is_number this
           (Host.DisableGPURendering (Scenario.sprite "B"))) ∧
  Current.disableGPURendering (Scenario.sprite "B") this = Normal tt this ∧
  Current.enableGPURendering (Scenario.sprite "A") this = Normal tt this.
Proof.
  intros this.
  destruct (flag_changes_only_by_its_sprite Scenario.number_is_number "A" this)
    as [Hother [_ Hon]].
  destruct (flag_changes_only_by_its_sprite Scenario.number_is_number "B" this)
    as [_ [Hoff _]].
  split; [| split].
  - destruct (Hother (Host.DisableGPURendering (Scenario.sprite "B")))
      as [flag [E1 E2]].
    + intros util E. discriminate E.
    + intros util [= <-]. discriminate.
    + rewrite E2. f_equal. injection E1 as <-. reflexivity.
  - apply Hoff. vm_compute. intros H. discriminate H.
  - apply Hon. vm_compute. reflexivity.
Defined.

(** * The canvas, the viewport and the resolution *)

Section Fixed.
Import WebGL.

Lemma useProgram_fixed (g : Context) (p : Program) :
  fixed_state (useProgram g p) = fixed_state g.
Proof. unfold useProgram. destruct (linked p); reflexivity. Qed.

Lemma uniform2f_fixed (g : Context) (loc : Uniform) (x y : number) :
  fixed_state (uniform2f g loc x y) = fixed_state g.
Proof. unfold uniform2f. destruct (current_program g), loc; reflexivity. Qed.

Lemma createBuffer_fixed (g : Context) :
  fixed_state (fst (createBuffer g)) = fixed_state g.
Proof. reflexivity. Qed.

Lemma bindBuffer_fixed (g : Context) (b : nat) :
  fixed_state (bindBuffer g b) = fixed_state g.
Proof. unfold bindBuffer. destruct (buffers g !! b); reflexivity. Qed.

Lemma bufferData_fixed (g : Context) (data : list number) :
  fixed_state (bufferData g data) = fixed_state g.
Proof. unfold bufferData. destruct (array_buffer g); reflexivity. Qed.

Lemma enableVertexAttribArray_fixed (g : Context) (a : Attrib) :
  fixed_state (enableVertexAttribArray g a) = fixed_state g.
Proof. reflexivity. Qed.

Lemma vertexAttribPointer_fixed (g : Context) (a : Attrib) (size : nat) :
  fixed_state (vertexAttribPointer g a size) = fixed_state g.
Proof. unfold vertexAttribPointer. destruct (array_buffer g); reflexivity. Qed.

Lemma lineWidth_fixed (g : Context) (w : number) :
  fixed_state (lineWidth g w) = fixed_state g.
Proof. reflexivity. Qed.

Lemma drawArrays_fixed (g : Context) :
  fixed_state (drawArrays_LINES_0_2 g) = fixed_state g.
Proof.
  unfold drawArrays_LINES_0_2.
  destruct (current_program g) as [p |]; [| reflexivity].
  destruct (shade g 0), (shade g 1); reflexivity.
Qed.

Lemma deleteBuffer_fixed (g : Context) (b : nat) :
  fixed_state (deleteBuffer g b) = fixed_state g.
Proof. reflexivity. Qed.

End Fixed.

Section Sized.
Context {Value : Type} (toNumber : Value → Q).

(** [drawGPULine] never sets the blending, the clear colour or the
    viewport, whatever state the instance is in and however the call ends. *)
Lemma drawGPULine_fixed (args : Scratch.LineArgs Value) (this : Instance)
    (gl0 : WebGL.Context) :
  gl this = Some gl0 →
  ∃ gl1,
    gl (final (Current.drawGPULine toNumber args this)) = Some gl1 ∧
    fixed_state gl1 = fixed_state gl0.
Proof.
  intros Egl. unfold Current.drawGPULine. rewrite Egl.
  destruct (shaderProgram this) as [program |]; [| now exists gl0].
  destruct (programInfo this) as [info |].
  - cbv zeta.
    lazymatch goal with
    | |- context [WebGL.createBuffer ?g] =>
        destruct (WebGL.createBuffer g) as [gl3 positionBuffer] eqn:E3
    end.
    lazymatch goal with
    | |- context [WebGL.createBuffer ?g] =>
        destruct (WebGL.createBuffer g) as [gl8 colorBuffer] eqn:E8
    end.
    eexists. split; [reflexivity |].
    rewrite !deleteBuffer_fixed, drawArrays_fixed, lineWidth_fixed,
      vertexAttribPointer_fixed, enableVertexAttribArray_fixed,
      bufferData_fixed, bindBuffer_fixed.
    apply (f_equal fst) in E8. cbn [fst] in E8. rewrite <- E8, createBuffer_fixed.
    rewrite vertexAttribPointer_fixed, enableVertexAttribArray_fixed,
      bufferData_fixed, bindBuffer_fixed.
    apply (f_equal fst) in E3. cbn [fst] in E3. rewrite <- E3, createBuffer_fixed.
    now rewrite uniform2f_fixed, useProgram_fixed.
  - eexists. split; [reflexivity |]. apply useProgram_fixed.
Qed.

Lemma constructor_follows_resolution (browser : Browser) :
  follows_resolution (Current.constructor browser).
Proof.
  destruct browser as [[] [] [] [] []]; split; intros x [= <-]; reflexivity.
Qed.

Lemma call_follows_resolution (block : Host.Block Value) (this : Instance) :
  follows_resolution this →
  follows_resolution (Host.call toNumber this block).
Proof.
  intros [Hcanvas Hview].
  destruct block; try exact (conj Hcanvas Hview).
  - destruct this as [[canvas |] [gl0 |] ? ? ? ? ? ? ?];
      split; intros x [= <-]; reflexivity.
  - cbn [Host.call].
    assert (Ekeep : resolution (final (Current.drawGPULine toNumber args this))
                    = resolution this ∧
                    glCanvas (final (Current.drawGPULine toNumber args this))
                    = glCanvas this).
    { unfold Current.drawGPULine.
      destruct (gl this), (shaderProgram this), (programInfo this);
        split; reflexivity. }
    destruct Ekeep as [Eres Ecanvas].
    unfold follows_resolution. rewrite Eres, Ecanvas.
    split; [exact Hcanvas |].
    intros gl1 Egl1.
    destruct (gl this) as [gl0 |] eqn:Egl.
    + destruct (drawGPULine_fixed args this gl0 Egl) as [gl1' [Egl1' Hfixed]].
      rewrite Egl1 in Egl1'. injection Egl1' as <-.
      injection Hfixed as _ _ _ ->. now apply Hview.
    + unfold Current.drawGPULine in Egl1. rewrite Egl in Egl1.
      cbn in Egl1. congruence.
  - cbn [Host.call]. unfold Current.clearGPUCanvas.
    destruct (gl this) as [gl0 |] eqn:Egl.
    + split; [exact Hcanvas |].
      intros gl1 [= <-].
      transitivity (WebGL.viewport_box gl0); [reflexivity |]. now apply Hview.
    + split; [exact Hcanvas |].
      intros gl1 Egl1. cbn in Egl1. congruence.
Qed.

(** [clearGPUCanvas] never sets the viewport. *)
Lemma clearGPUCanvas_keeps_viewport (this : Instance) :
  WebGL.viewport_box <$> gl (final (Current.clearGPUCanvas this))
    = WebGL.viewport_box <$> gl this.
Proof.
  unfold Current.clearGPUCanvas.
  destruct (gl this) as [gl0 |] eqn:Egl; cbn [final]; [reflexivity |].
  now rewrite Egl.
Qed.

Lemma drawGPULine_keeps_viewport (args : Scratch.LineArgs Value) (this : Instance) :
  WebGL.viewport_box <$> gl (final (Current.drawGPULine toNumber args this))
    = WebGL.viewport_box <$> gl this.
Proof.
  destruct (gl this) as [gl0 |] eqn:Egl.
  - destruct (drawGPULine_fixed args this gl0 Egl) as [gl1 [Egl1 Hfixed]].
    rewrite Egl1. injection Hfixed as _ _ _ Eview.
    change (Some (WebGL.viewport_box gl1) = Some (WebGL.viewport_box gl0)).
    now rewrite Eview.
  - unfold Current.drawGPULine. rewrite Egl. cbn [final]. now rewrite Egl.
Qed.

(** X6. The size of the canvas and the viewport follow the stored resolution:
    on a constructed instance, after any sequence of blocks with any
    arguments, the canvas (there is always one) has the width and height of
    the stored resolution and, when there is a context, so has the viewport,
    at the origin.  [drawGPULine] and [clearGPUCanvas] never set the
    viewport: on any instance, with any arguments and however the call ends,
    the viewport after the call is the viewport before it. *)
Theorem canvas_and_viewport_follow_resolution
    (browser : Browser) (blocks : list (Host.Block Value)) :
  follows_resolution (Host.run toNumber blocks (Current.constructor browser)) ∧
  (∀ args this,
     WebGL.viewport_box <$> gl (final (Current.drawGPULine toNumber args this))
       = WebGL.viewport_box <$> gl this) ∧
  (∀ this,
     WebGL.viewport_box <$> gl (final (Current.clearGPUCanvas this))
       = WebGL.viewport_box <$> gl this).
Proof.
  split; [| split; [exact drawGPULine_keeps_viewport
                   | exact clearGPUCanvas_keeps_viewport]].
  pose proof (constructor_follows_resolution browser) as Hstart.
  revert Hstart. generalize (Current.constructor browser).
  induction blocks as [| block blocks IH]; intros this Hthis.
  - exact Hthis.
  - cbn [Host.run foldl]. apply IH. now apply call_follows_resolution.
Qed.

End Sized.

(** * Drawing several lines *)

Section Lines.
Context {Value : Type} (toNumber : Value → Q).

Lemma drawGPULine_keeps_ready (args : Scratch.LineArgs Value) (this : Instance)
    (gl0 : WebGL.Context) (d : Dim) :
  Ready this gl0 d →
  (1 <= penWidth this)%Q →
  ∃ gl1 ln,
    Current.drawGPULine toNumber args this = Normal tt (set_gl this (Some gl1)) ∧
    Ready (set_gl this (Some gl1)) gl1 d ∧
    WebGL.drawn gl1 = WebGL.drawn gl0 ++ [ln] ∧
    drawn_as toNumber this d args ln ∧
    WebGL.buffers gl1 = WebGL.buffers gl0 ∧
    WebGL.background gl1 = WebGL.background gl0.
Proof.
  intros Hready Hwidth.
  destruct (ready_program _ _ _ Hready) as [s Eprog].
  destruct (drawGPULine_step toNumber args this gl0 d s Hready Eprog)
    as [gl1 [Ecall [Edrawn [_ [Ebuffers [Ebackground Enext]]]]]].
  destruct Hready as [Egl _ Hinfo Eres Hbelow].
  exists gl1. eexists. split; [exact Ecall |].
  split.
  { constructor.
    - reflexivity.
    - exists s. exact Eprog.
    - exact Hinfo.
    - exact Eres.
    - intros i Hlive. rewrite Ebuffers in Hlive. rewrite Enext.
      apply Hbelow in Hlive. lia. }
  split; [exact Edrawn |].
  split; [do 4 (split; [reflexivity |]); now apply width_accepted |].
  split; assumption.
Qed.


End Lines.


(** * Selecting the quality again *)

(** X9. Selecting the quality the instance already has is a clear: when the
    canvas and the viewport follow the stored resolution (as they do on every
    constructed instance) and the name gives the stored resolution,
    [setResolution] does what [clearGPUCanvas] does on the instance with the
    name recorded. *)
Theorem setResolution_again_is_clear (name : string) (this : Instance) :
  follows_resolution this →
  resolutions_or_1080p name = resolution this →
  Current.setResolution (Scenario.quality name) this
    = Current.clearGPUCanvas (set_targetResolution this name).
Proof.
  intros [Hcanvas Hview] Eres.
  unfold Current.setResolution, Current.clearGPUCanvas.
  cbn [Scenario.quality Scratch.QUALITY].
  destruct this as [canvas gl0 res target sprites program info color width'].
  cbn in Hcanvas, Hview, Eres. subst res.
  destruct canvas as [c |], gl0 as [g0 |].
  - pose proof (Hcanvas c eq_refl) as Ec. specialize (Hview g0 eq_refl).
    destruct g0. cbn in Hview. subst. reflexivity.
  - pose proof (Hcanvas c eq_refl) as Ec. subst. reflexivity.
  - specialize (Hview g0 eq_refl). destruct g0. cbn in Hview. subst. reflexivity.
  - reflexivity.
Qed.

Lemma setResolution_again_is_clear_witness :
  let this := Host.run Scenario.number_is_number
                [ Host.SetResolution (Scenario.quality "4K");
                  Host.DrawGPULine (Scenario.line 0 0 100 100) ]
                (Current.constructor Scenario.all_fine) in
  Current.setResolution (Scenario.quality "4K") this
    = Current.clearGPUCanvas (set_targetResolution this "4K").
Proof.
  intros this.
  apply setResolution_again_is_clear.
  - unfold this. cbn [Host.run foldl].
    do 2 apply call_follows_resolution.
    apply constructor_follows_resolution.
  - reflexivity.
Defined.

(** * The two variants *)

Section Agreement.
Context {Value : Type} (toNumber : Value → Q).

(** X10. Where the older variant agrees with the current one: on every instance
    for the registry, the pen, the reporters and [clearGPUCanvas]; for
    [setResolution] on every instance that has a canvas and a context; for
    [drawGPULine] on every instance that lacks the context, the program or
    its locations (both return at once, or both throw). *)
Theorem variants_agree :
  (∀ util this,
     Older.enableGPURendering util this = Current.enableGPURendering util this) ∧
  (∀ util this,
     Older.disableGPURendering util this = Current.disableGPURendering util this) ∧
  (∀ util this, Older.isGPUEnabled util this = Current.isGPUEnabled util this) ∧
  (∀ args this,
     Older.setPenColor toNumber args this = Current.setPenColor toNumber args this) ∧
  (∀ args this,
     Older.setPenWidth toNumber args this = Current.setPenWidth toNumber args this) ∧
  (∀ this, Older.getResolutionWidth this = Current.getResolutionWidth this) ∧
  (∀ this, Older.getResolutionHeight this = Current.getResolutionHeight this) ∧
  (∀ this, Older.clearGPUCanvas this = Current.clearGPUCanvas this) ∧
  (∀ args this,
     present (glCanvas this) = true → present (gl this) = true →
     Older.setResolution args this = Current.setResolution args this) ∧
  (∀ args this,
     present (gl this) && present (shaderProgram this)
       && present (programInfo this) = false →
     Older.drawGPULine toNumber args this = Current.drawGPULine toNumber args this).
Proof.
  repeat split.
  - intros args [[canvas |] [gl0 |] ? ? ? ? ? ? ?] Hcanvas Hgl;
      try discriminate Hcanvas; try discriminate Hgl. reflexivity.
  - intros args [? [gl0 |] ? ? ? [program |] [info |] ? ?] Hmissing;
      try discriminate Hmissing; reflexivity.
Qed.

End Agreement.

Lemma variants_agree_witness :
  Older.setResolution (Scenario.quality "4K") (Current.constructor Scenario.all_fine)
    = Current.setResolution (Scenario.quality "4K")
        (Current.constructor Scenario.all_fine) ∧
  Older.drawGPULine Scenario.number_is_number (Scenario.line 0 0 100 100)
      (Current.constructor Scenario.link_fails)
    = Current.drawGPULine Scenario.number_is_number (Scenario.line 0 0 100 100)
        (Current.constructor Scenario.link_fails).
Proof.
  destruct (variants_agree Scenario.number_is_number)
    as [_ [_ [_ [_ [_ [_ [_ [_ [Hres Hdraw]]]]]]]]].
  split.
  - apply Hres; reflexivity.
  - apply Hdraw. reflexivity.
Defined.


(** X12. When no program is created (no context, or a shader that does not
    compile) the two constructors give the same instance. *)
Theorem constructors_agree_without_program (browser : Browser) :
  gives_context browser && compiles browser = false →
  Older.constructor browser = Current.constructor browser.
Proof.
  destruct browser as [[] [] [] [] []]; intros H;
    try discriminate H; reflexivity.
Qed.

Lemma constructors_agree_without_program_witness :
  Older.constructor Scenario.compile_fails
    = Current.constructor Scenario.compile_fails.
Proof. apply constructors_agree_without_program. reflexivity. Defined.

(** * The descriptors *)

(** X13. The quality menu offers exactly the names of the preset table, in both
    variants: every item has its own entry in the table, so choosing from the
    menu never takes the 1080p fallback nor an inherited member, and every
    entry of the table is on the menu. *)
Theorem quality_menu_is_the_table (name : string) :
  (name ∈ menu_items Current.getInfo "qualityMenu" ↔ is_Some (resolutions !! name)) ∧
  (name ∈ menu_items Older.getInfo "qualityMenu" ↔ is_Some (resolutions !! name)).
Proof.
  assert (Hmenu : name ∈ [ "480p"; "720p"; "1080p"; "2K"; "4K" ]%string
                  ↔ is_Some (resolutions !! name)).
  { rewrite resolutions_is_preset. unfold Spec.preset.
    rewrite !elem_of_cons, elem_of_nil.
    repeat match goal with
           | |- context [String.eqb name ?k] =>
               destruct (String.eqb_spec name k) as [-> | ?]
           end;
      cbn; split; intros H; try (eexists; reflexivity); try tauto;
      try (destruct H as [? H]; discriminate H);
      try (left; reflexivity);
      try (right; left; reflexivity);
      try (right; right; left; reflexivity);
      try (right; right; right; left; reflexivity);
      try (right; right; right; right; left; reflexivity). }
  split; exact Hmenu.
Qed.

(** X14. The two variants declare the same blocks to the host: the same opcodes
    with the same block types, arguments and defaults (the order and two
    labels differ), and the same menus. *)
Theorem variants_declare_the_same_blocks :
  (∀ signature,
     signature ∈ signatures Older.getInfo ↔ signature ∈ signatures Current.getInfo) ∧
  length (signatures Older.getInfo) = length (signatures Current.getInfo) ∧
  NoDup (opcodes Current.getInfo) ∧
  Descriptor.menus Older.getInfo = Descriptor.menus Current.getInfo.
Proof.
  split; [| split; [reflexivity | split; [| reflexivity]]].
  - intros signature. unfold signatures. cbn.
    rewrite !elem_of_cons, !elem_of_nil. tauto.
  - apply (bool_decide_unpack _). vm_compute. exact I.
Qed.

(** * The older [setResolution] *)

(** X15. The older [setResolution] throws exactly when the canvas or the context
    is missing, and it has stored the name and the resolution by then: a
    call that fails has still changed the instance. *)
Theorem older_setResolution_throws (args : Scratch.QualityArgs) (this : Instance) :
  throws (Older.setResolution args this)
    = negb (present (glCanvas this) && present (gl this)) ∧
  resolution (final (Older.setResolution args this))
    = resolutions_or_1080p (Scratch.QUALITY args) ∧
  targetResolution (final (Older.setResolution args this)) = Scratch.QUALITY args.
Proof.
  destruct this as [[canvas |] [gl0 |] ? ? ? ? ? ? ?]; repeat split.
Qed.
